(** * Helexia commercial planner: the timeline engine of [src/services/scheduler.ts]

    A shallow embedding of the date utilities ([addMonths], [subMonths],
    [diffMonths], [isRestrictedMonth]) and of [calculateProjectTimeline],
    followed by the properties of the engine.

    Modelling conventions.
    - A JavaScript [Date] is its time value: an integer number of
      milliseconds since 1970-01-01T00:00:00Z.  The host time zone is taken
      to be UTC, so the local accessors ([getMonth], [setDate], ...) agree
      with the UTC ones.  The first embedding takes every date to be
      valid; the second one ([Clipped]) adds Invalid Dates ([NaN] time
      values) and the [TimeClip] range limit, and carries the properties
      that depend on them.
    - A JavaScript [number] that carries a power or a duration is a
      rational ([Q]); arithmetic and comparisons are exact, so the rounding
      of doubles, [NaN] and the infinities are outside the model.
    - An optional field ([x?: T]) is an [option]. *)

From Stdlib Require Import ZArith QArith Qround List Bool String Lia.
From Stdlib Require Import DecimalString DecimalNat.
Import ListNotations.
Open Scope Z_scope.

(** ** The proleptic Gregorian calendar behind [Date] *)

Module Calendar.

(** Years are cut at March 1st, so that the leap day is the last day of
    the shifted year; a 400-year era has 146097 days. *)

Definition era_days : Z := 146097.
Definition epoch_shift : Z := 719468.

(** First day of the shifted year [yoe] inside its era. *)
Definition yearStart (yoe : Z) : Z := 365 * yoe + yoe / 4 - yoe / 100.

(** First day of the shifted month [mp] (0 = March ... 11 = February)
    inside its shifted year. *)
Definition monthStart (mp : Z) : Z := (153 * mp + 2) / 5.

Definition yoe_of (doe : Z) : Z :=
  (doe - doe / 1460 + doe / 36524 - doe / 146096) / 365.

Definition mp_of (doy : Z) : Z := (5 * doy + 2) / 153.

(** Day number (days since 1970-01-01) of a civil date; [m] is 0-based
    as in JavaScript, and [d] may be any integer (day 0 is the last day
    of the previous month, and so on). *)
Definition days_from_civil (y m d : Z) : Z :=
  let y' := if m <? 2 then y - 1 else y in
  let mp := if m <? 2 then m + 10 else m - 2 in
  (y' / 400) * era_days + yearStart (y' mod 400) + monthStart mp + (d - 1)
  - epoch_shift.

(** Civil date (year, 0-based month, day of month) of a day number. *)
Definition civil_from_days (z : Z) : Z * Z * Z :=
  let z' := z + epoch_shift in
  let era := z' / era_days in
  let doe := z' mod era_days in
  let yoe := yoe_of doe in
  let doy := doe - yearStart yoe in
  let mp := mp_of doy in
  let d := doy - monthStart mp + 1 in
  let m := if mp <? 10 then mp + 2 else mp - 10 in
  let y' := yoe + era * 400 in
  (if m <? 2 then y' + 1 else y', m, d).

Definition isLeap (y : Z) : bool :=
  (y mod 4 =? 0) && (negb (y mod 100 =? 0) || (y mod 400 =? 0)).

Definition daysInMonth (y m : Z) : Z :=
  if m =? 1 then (if isLeap y then 29 else 28)
  else if (m =? 3) || (m =? 5) || (m =? 8) || (m =? 10) then 30
  else 31.

(** Length of the shifted year [yoe]: it ends with the February of civil
  year [yoe + 1]. *)
Definition yearLen (yoe : Z) : Z := if isLeap (yoe + 1) then 366 else 365.

(** Shifted month of a civil month and back. *)
Definition shiftMonth (m : Z) : Z := if m <? 2 then m + 10 else m - 2.
Definition unshiftMonth (mp : Z) : Z := if mp <? 10 then mp + 2 else mp - 10.

(** Leap days before March 1st of year [y], counted from year 0. *)
Definition leapDays (y : Z) : Z := y / 4 - y / 100 + y / 400.

End Calendar.

(** ** JavaScript [Date] objects, as time values *)

Module JSDate.
Import Calendar.

Definition Date : Type := Z.

Definition msPerDay : Z := 86400000.

Definition Day (t : Date) : Z := t / msPerDay.
Definition TimeWithinDay (t : Date) : Z := t mod msPerDay.

Definition getFullYear (t : Date) : Z := fst (fst (civil_from_days (Day t))).
Definition getMonth (t : Date) : Z := snd (fst (civil_from_days (Day t))).
Definition getDate (t : Date) : Z := snd (civil_from_days (Day t)).
Definition getTime (t : Date) : Z := t.

(** [MakeDay(year, month, date)] of ECMA-262: the month may lie outside
    0..11 and carries into the year; the date is an offset from the first
    of that month. *)
Definition MakeDay (year month date : Z) : Z :=
  days_from_civil (year + month / 12) (month mod 12) 1 + date - 1.

Definition MakeDate (day time : Z) : Date := day * msPerDay + time.

Definition setMonth (t : Date) (month : Z) : Date :=
  MakeDate (MakeDay (getFullYear t) month (getDate t)) (TimeWithinDay t).

Definition setDate (t : Date) (date : Z) : Date :=
  MakeDate (MakeDay (getFullYear t) (getMonth t) date) (TimeWithinDay t).

(** [ToIntegerOrInfinity] on a finite number: truncation towards zero. *)
Definition ToInteger (q : Q) : Z := Z.quot (Qnum q) (Zpos (Qden q)).

(** [Math.round]: the nearest integer, ties towards plus infinity. *)
Definition Math_round (q : Q) : Z := Qfloor (q + (1 # 2)).

(** The date [y]-[m]-[d] at midnight UTC ([m] is 1-based here, as in the
    [YYYY-MM-DD] strings the application stores). *)
Definition ymd (y m d : Z) : Date := days_from_civil y (m - 1) d * msPerDay.

End JSDate.

Import Calendar JSDate.

(** ** Date utilities of [scheduler.ts] *)

(** [a < b] on numbers. *)
Definition Qltb (a b : Q) : bool := negb (Qle_bool b a).

(** [d.setMonth(d.getMonth() + months)] on a copy of [date]. *)
Definition addMonths (date : Date) (months : Q) : Date :=
  setMonth date (ToInteger (inject_Z (getMonth date) + months)).

Definition diffMonths (d1 d2 : Date) : Z :=
  let months := (getFullYear d2 - getFullYear d1) * 12 in
  let months := months - getMonth d1 in
  let months := months + getMonth d2 in
  if months <=? 0 then 0 else months.

(** [d.setMonth(d.getMonth() - months)] on a copy of [date]. *)
Definition subMonths (date : Date) (months : Q) : Date :=
  setMonth date (ToInteger (inject_Z (getMonth date) - months)).

Definition isRestrictedMonth (date : Date) : bool :=
  let m := getMonth date in
  (m =? 0) || (m =? 3) || (m =? 7).

(** ** Types of the engine ([types.ts]) *)

Inductive ProjectTypology := ROOF_NEW | ROOF_EXISTING | SHADE | GROUND.
Inductive InjectionType := TOTAL_INJECTION | AUTOCONSUMPTION.
Inductive InvestmentModel := OWN_INVESTMENT | CLIENT_INVESTMENT.

Definition ProjectTypology_eqb (a b : ProjectTypology) : bool :=
  match a, b with
  | ROOF_NEW, ROOF_NEW | ROOF_EXISTING, ROOF_EXISTING
  | SHADE, SHADE | GROUND, GROUND => true
  | _, _ => false
  end.

Definition InjectionType_eqb (a b : InjectionType) : bool :=
  match a, b with
  | TOTAL_INJECTION, TOTAL_INJECTION | AUTOCONSUMPTION, AUTOCONSUMPTION => true
  | _, _ => false
  end.

Definition InvestmentModel_eqb (a b : InvestmentModel) : bool :=
  match a, b with
  | OWN_INVESTMENT, OWN_INVESTMENT | CLIENT_INVESTMENT, CLIENT_INVESTMENT => true
  | _, _ => false
  end.

Module Override.
Record PhaseOverride := {
    negotiationDuration : option Q;
    urbanismDuration : option Q;
    creDuration : option Q;
    leaseDuration : option Q;
    connectionDuration : option Q;
    constructionDuration : option Q }.

  (** The object [{}]. *)
Definition none : PhaseOverride :=
    {| negotiationDuration := None; urbanismDuration := None;
       creDuration := None; leaseDuration := None;
       connectionDuration := None; constructionDuration := None |}.
End Override.

Module Skip.
Record SkippedPhases := {
    negotiation : option bool;
    urbanism : option bool;
    aoCre : option bool;
    leaseManagement : option bool;
    connection : option bool;
    construction : option bool }.

  (** The object [{}]. *)
Definition none : SkippedPhases :=
    {| negotiation := None; urbanism := None; aoCre := None;
       leaseManagement := None; connection := None; construction := None |}.
End Skip.

(** Truthiness of an optional boolean: [undefined] and [false] are falsy. *)
Definition truthy (b : option bool) : bool :=
  match b with Some true => true | _ => false end.

(** [signatureDate] is kept as the [Date] that [new Date(config.signatureDate)]
    builds from the stored [YYYY-MM-DD] string: midnight UTC of that day. *)
Record ProjectConfig := {
  id : string;
  name : string;
  signatureDate : Date;
  powerKWc : Q;
  typology : ProjectTypology;
  injectionType : InjectionType;
  investmentModel : InvestmentModel;
  isSubcontracted : bool;
  overrides : Override.PhaseOverride;
  skippedPhases : Skip.SkippedPhases }.

Record DateRange := {
  start : Date;
  end_ : Date;
  durationMonths : Q }.

Record Milestones := {
  loi : option Date;
  signature : Date;
  urbanismOk : option Date;
  laureate : option Date;
  leaseSigned : option Date;
  constructionCompletion : Date;
  cod : Date }.

Module Result.
Record PhaseResult := {
    negotiation : option DateRange;
    urbanism : option DateRange;
    aoCre : option DateRange;
    leaseManagement : option DateRange;
    connection : DateRange;
    construction : DateRange;
    operation : DateRange;
    milestones : Milestones;
    totalDurationMonths : Z }.
End Result.

(** [x !== undefined ? x : dflt], the shape of every override lookup. *)
Definition orDefault (o : option Q) (dflt : Q) : Q :=
  match o with Some x => x | None => dflt end.

(** ** Loops *)

(** [while (cond) body], run for at most [fuel] iterations. *)
Fixpoint while {St : Type} (fuel : nat) (cond : St -> bool) (body : St -> St)
    (s : St) : St :=
  match fuel with
  | O => s
  | S fuel' => if cond s then while fuel' cond body (body s) else s
  end.

(** The three variables of either seasonality loop:
    [validMonthsFound] / [validMonthsAdded], [cursor], [protection]. *)
Record Walk := {
  validMonths : Z;
  cursor : Date;
  protection : Z }.

Definition walk_init (d : Date) : Walk :=
  {| validMonths := 0; cursor := d; protection := 0 |}.

(** Loop condition shared by both walks:
    [valid < workMonthsNeeded && protection < 36]. *)
Definition walk_cond (workMonthsNeeded : Q) (s : Walk) : bool :=
  Qltb (inject_Z (validMonths s)) workMonthsNeeded && (protection s <? 36).

(** Body of the backward loop (lines 173-181). *)
Definition backward_body (s : Walk) : Walk :=
  let prevMonth := subMonths (cursor s) 1 in
  {| validMonths := if negb (isRestrictedMonth prevMonth)
                    then validMonths s + 1 else validMonths s;
     cursor := prevMonth;
     protection := protection s + 1 |}.

(** Body of the forward loop (lines 208-213). *)
Definition forward_body (s : Walk) : Walk :=
  let isRestricted := isRestrictedMonth (cursor s) in
  {| validMonths := if negb isRestricted
                    then validMonths s + 1 else validMonths s;
     cursor := addMonths (cursor s) 1;
     protection := protection s + 1 |}.

(** Iteration budget given to [while]; the loops stop by their own
    condition within it (see [walk_exits]). *)
Definition walk_fuel : nat := 36.

Definition backwardWalk (workMonthsNeeded : Q) (from : Date) : Walk :=
  while walk_fuel (walk_cond workMonthsNeeded) backward_body (walk_init from).

Definition forwardWalk (workMonthsNeeded : Q) (from : Date) : Walk :=
  while walk_fuel (walk_cond workMonthsNeeded) forward_body (walk_init from).

(** ** The engine, stage by stage

    Each definition below is one named local of [calculateProjectTimeline],
    as a function of the configuration. *)

Section Engine.
Variable config : ProjectConfig.

Definition T0 : Date := signatureDate config.
Definition P : Q := powerKWc config.
Definition skipped : Skip.SkippedPhases := skippedPhases config.

  (** 1. Negotiation (lines 59-71). *)
Definition negotiationRange : option DateRange :=
    if negb (truthy (Skip.negotiation skipped)) then
      let negDuration :=
        orDefault (Override.negotiationDuration (overrides config)) (1 # 2) in
      let days := Math_round (negDuration * (3044 # 100)) in
      let negotiationStart := setDate T0 (getDate T0 - days) in
      Some {| start := negotiationStart; end_ := T0; durationMonths := negDuration |}
    else None.

  (** 2. Urbanism (lines 75-85). *)
Definition urbanDuration : Q :=
    let urbanDuration :=
      if Qltb 3000 P || ProjectTypology_eqb (typology config) ROOF_NEW
      then 6%Q else 4%Q in
    orDefault (Override.urbanismDuration (overrides config)) urbanDuration.

Definition urbanEnd : Date :=
    if negb (truthy (Skip.urbanism skipped)) then addMonths T0 urbanDuration
    else T0.

Definition urbanRange : option DateRange :=
    if negb (truthy (Skip.urbanism skipped)) then
      Some {| start := T0; end_ := urbanEnd; durationMonths := urbanDuration |}
    else None.

  (** 3. Security phase: AO CRE (lines 91-100). *)
Definition creRange : option DateRange :=
    if negb (truthy (Skip.aoCre skipped)) && Qltb 100 P
       && InjectionType_eqb (injectionType config) TOTAL_INJECTION then
      let dur := orDefault (Override.creDuration (overrides config)) 4 in
      Some {| start := urbanEnd; end_ := addMonths urbanEnd dur; durationMonths := dur |}
    else None.

  (** Lease management (lines 104-114). *)
Definition leaseRange : option DateRange :=
    if negb (truthy (Skip.leaseManagement skipped))
       && InvestmentModel_eqb (investmentModel config) OWN_INVESTMENT then
      let dur := orDefault (Override.leaseDuration (overrides config)) 4 in
      Some {| start := urbanEnd; end_ := addMonths urbanEnd dur; durationMonths := dur |}
    else None.

  (** The lock (lines 118-121). *)
Definition creEndDate : Date :=
    match creRange with Some r => end_ r | None => urbanEnd end.
Definition leaseEndDate : Date :=
    match leaseRange with Some r => end_ r | None => urbanEnd end.
Definition securityLockDate : Date :=
    Z.max (getTime creEndDate) (getTime leaseEndDate).

  (** 4. Connection (lines 124-144). *)
Definition connectionDuration : Q :=
    let connectionDuration :=
      match Override.connectionDuration (overrides config) with
      | Some d => d
      | None =>
          if InjectionType_eqb (injectionType config) AUTOCONSUMPTION then 5%Q
          else if Qle_bool P 36 then 6%Q
          else if Qle_bool P 250 then 9%Q
          else if Qle_bool P 1000 then 12%Q
          else 18%Q
      end in
    if truthy (Skip.connection skipped) then 0%Q else connectionDuration.

  (** Initial placement of the connection window. *)
Definition connectionStart0 : Date := securityLockDate.
Definition connectionEnd0 : Date := addMonths connectionStart0 connectionDuration.

  (** 5. Construction: work needed (lines 153-156). *)
Definition workMonthsNeeded : Q :=
    let workMonthsNeeded := 3%Q in
    let workMonthsNeeded := if Qltb 500 P then 4%Q else workMonthsNeeded in
    let workMonthsNeeded := if Qltb 2000 P then 6%Q else workMonthsNeeded in
    orDefault (Override.constructionDuration (overrides config)) workMonthsNeeded.

  (** Lines 159-160. *)
Definition targetConstructionEnd : Date :=
    setDate connectionEnd0 (getDate connectionEnd0 - 15).

  (** Backward placement (lines 162-184): the value of
      [constructionStartDate] before the constraint check. *)
Definition constructionStart0 : Date :=
    if isSubcontracted config then subMonths targetConstructionEnd workMonthsNeeded
    else cursor (backwardWalk workMonthsNeeded targetConstructionEnd).

  (** The test of line 187. *)
Definition needsRepair : bool := constructionStart0 <? securityLockDate.

  (** Forward pass from the lock (lines 191-192 and 204-215). *)
Definition actualConstructionEnd : Date :=
    if isSubcontracted config then addMonths securityLockDate workMonthsNeeded
    else cursor (forwardWalk workMonthsNeeded securityLockDate).

  (** Lines 194-195 and 218-219. *)
Definition newConnectionEnd : Date :=
    setDate actualConstructionEnd (getDate actualConstructionEnd + 15).

  (** Named views of the three mutable locals once stage 5 is over; they
      are shown to be what [constructionStage] computes in
      [constructionStage_views]. *)
Definition constructionStartDate : Date :=
    if needsRepair then securityLockDate else constructionStart0.

Definition connectionEnd : Date :=
    if negb (truthy (Skip.construction skipped)) && needsRepair
       && negb (truthy (Skip.connection skipped))
    then newConnectionEnd else connectionEnd0.

Definition connectionStart : Date :=
    if negb (truthy (Skip.construction skipped)) && needsRepair
       && negb (truthy (Skip.connection skipped))
    then subMonths connectionEnd connectionDuration else connectionStart0.

Definition constructionRange : DateRange :=
    if truthy (Skip.construction skipped) then
      {| start := connectionStart; end_ := connectionStart; durationMonths := 0 |}
    else
      {| start := constructionStartDate;
         end_ := getTime connectionEnd - (15 * 24 * 60 * 60 * 1000);
         durationMonths := inject_Z (diffMonths constructionStartDate connectionEnd) |}.

  (** Stage 5 as the source runs it, threading the mutable locals
      [constructionStartDate], [connectionStart] and [connectionEnd]
      (lines 143-233).  Returns [constructionRange] with the final
      [connectionStart] and [connectionEnd]. *)
Definition constructionStage : DateRange * Date * Date :=
    let connectionStart := securityLockDate in
    let connectionEnd := addMonths connectionStart connectionDuration in
    if truthy (Skip.construction skipped) then
      ({| start := connectionStart; end_ := connectionStart; durationMonths := 0 |},
       connectionStart, connectionEnd)
    else
      let workMonthsNeeded := workMonthsNeeded in
      let targetConstructionEnd := setDate connectionEnd (getDate connectionEnd - 15) in
      let constructionStartDate :=
        if isSubcontracted config then
          subMonths targetConstructionEnd workMonthsNeeded
        else
          cursor (while walk_fuel (walk_cond workMonthsNeeded) backward_body
                    {| validMonths := 0; cursor := targetConstructionEnd;
                       protection := 0 |}) in
      let '(constructionStartDate, connectionStart, connectionEnd) :=
        if constructionStartDate <? securityLockDate then
          let constructionStartDate := securityLockDate in
          if isSubcontracted config then
            let actualConstructionEnd :=
              addMonths constructionStartDate workMonthsNeeded in
            let newConnectionEnd :=
              setDate actualConstructionEnd (getDate actualConstructionEnd + 15) in
            if negb (truthy (Skip.connection skipped)) then
              let connectionEnd := newConnectionEnd in
              (constructionStartDate,
               subMonths connectionEnd connectionDuration, connectionEnd)
            else (constructionStartDate, connectionStart, connectionEnd)
          else
            let actualConstructionEnd :=
              cursor (while walk_fuel (walk_cond workMonthsNeeded) forward_body
                        {| validMonths := 0; cursor := constructionStartDate;
                           protection := 0 |}) in
            let newConnectionEnd :=
              setDate actualConstructionEnd (getDate actualConstructionEnd + 15) in
            if negb (truthy (Skip.connection skipped)) then
              let connectionEnd := newConnectionEnd in
              (constructionStartDate,
               subMonths connectionEnd connectionDuration, connectionEnd)
            else (constructionStartDate, connectionStart, connectionEnd)
        else (constructionStartDate, connectionStart, connectionEnd) in
      ({| start := constructionStartDate;
          end_ := getTime connectionEnd - (15 * 24 * 60 * 60 * 1000);
          durationMonths := inject_Z (diffMonths constructionStartDate connectionEnd) |},
       connectionStart, connectionEnd).

Definition finalNegotiationStart : Date :=
    match negotiationRange with Some r => start r | None => T0 end.

  (** The whole function (lines 53-260). *)
Definition calculateProjectTimeline : Result.PhaseResult :=
    let '(constructionRange, connectionStart, connectionEnd) := constructionStage in
    (* 6. Operation (COD) *)
    let codDate := addMonths connectionEnd 1 in
    {| Result.negotiation := negotiationRange;
       Result.urbanism := urbanRange;
       Result.aoCre := creRange;
       Result.leaseManagement := leaseRange;
       Result.connection :=
         {| start := connectionStart; end_ := connectionEnd;
            durationMonths := connectionDuration |};
       Result.construction := constructionRange;
       Result.operation :=
         {| start := codDate; end_ := addMonths codDate 24; durationMonths := 24 |};
       Result.milestones :=
         {| loi := match negotiationRange with Some _ => Some T0 | None => None end;
            signature := T0;
            urbanismOk := match urbanRange with Some _ => Some urbanEnd | None => None end;
            laureate := option_map end_ creRange;
            leaseSigned := option_map end_ leaseRange;
            constructionCompletion := end_ constructionRange;
            cod := codDate |};
       Result.totalDurationMonths := diffMonths finalNegotiationStart codDate |}.

End Engine.

(** ** Vocabulary of the statements *)

(** One step of a seasonality walk, with the direction abstracted:
    [next] moves the cursor, [counted] tells whether the step from a
    cursor position counts as a productive month. *)
Definition stepWalk (counted : Date -> bool) (next : Date -> Date) (s : Walk) : Walk :=
  {| validMonths := if counted (cursor s) then validMonths s + 1 else validMonths s;
     cursor := next (cursor s);
     protection := protection s + 1 |}.

(** Cursor position after [k] steps from [c]. *)
Definition trail (next : Date -> Date) (k : nat) (c : Date) : Date := Nat.iter k next c.

(** Number of productive months among the first [k] steps from [c]. *)
Fixpoint productive (counted : Date -> bool) (next : Date -> Date) (k : nat) (c : Date) : Z :=
  match k with
  | O => 0
  | S k' => productive counted next k' c
            + (if counted (trail next k' c) then 1 else 0)
  end.

(** Backward walk: a step goes one month back and counts when the month it
    lands on is not restricted. *)
Definition backStep (c : Date) : Date := subMonths c 1.
Definition backCounted (c : Date) : bool := negb (isRestrictedMonth (subMonths c 1)).

(** Forward walk: a step goes one month ahead and counts when the month it
    leaves is not restricted. *)
Definition fwdStep (c : Date) : Date := addMonths c 1.
Definition fwdCounted (c : Date) : bool := negb (isRestrictedMonth c).

(** ** Configurations used as examples *)

(** The project of the worked scenario: signed 2025-03-01, 200 kWc on an
    existing roof, total injection, own investment, self-executed, nothing
    skipped, nothing overridden. *)
Definition scenario : ProjectConfig :=
  {| id := "prj_1"; name := "scenario";
     signatureDate := ymd 2025 3 1;
     powerKWc := 200;
     typology := ROOF_EXISTING;
     injectionType := TOTAL_INJECTION;
     investmentModel := OWN_INVESTMENT;
     isSubcontracted := false;
     overrides := Override.none;
     skippedPhases := Skip.none |}.

(** Record updates, one per field that the examples change. *)
Definition withSignature (d : Date) (c : ProjectConfig) : ProjectConfig :=
  {| id := id c; name := name c; signatureDate := d; powerKWc := powerKWc c;
     typology := typology c; injectionType := injectionType c;
     investmentModel := investmentModel c; isSubcontracted := isSubcontracted c;
     overrides := overrides c; skippedPhases := skippedPhases c |}.

Definition withInjection (i : InjectionType) (c : ProjectConfig) : ProjectConfig :=
  {| id := id c; name := name c; signatureDate := signatureDate c;
     powerKWc := powerKWc c; typology := typology c; injectionType := i;
     investmentModel := investmentModel c; isSubcontracted := isSubcontracted c;
     overrides := overrides c; skippedPhases := skippedPhases c |}.

Definition withSubcontracted (b : bool) (c : ProjectConfig) : ProjectConfig :=
  {| id := id c; name := name c; signatureDate := signatureDate c;
     powerKWc := powerKWc c; typology := typology c;
     injectionType := injectionType c; investmentModel := investmentModel c;
     isSubcontracted := b; overrides := overrides c;
     skippedPhases := skippedPhases c |}.

Definition withOverrides (o : Override.PhaseOverride) (c : ProjectConfig) : ProjectConfig :=
  {| id := id c; name := name c; signatureDate := signatureDate c;
     powerKWc := powerKWc c; typology := typology c;
     injectionType := injectionType c; investmentModel := investmentModel c;
     isSubcontracted := isSubcontracted c; overrides := o;
     skippedPhases := skippedPhases c |}.

Definition withSkipped (s : Skip.SkippedPhases) (c : ProjectConfig) : ProjectConfig :=
  {| id := id c; name := name c; signatureDate := signatureDate c;
     powerKWc := powerKWc c; typology := typology c;
     injectionType := injectionType c; investmentModel := investmentModel c;
     isSubcontracted := isSubcontracted c; overrides := overrides c;
     skippedPhases := s |}.

Definition withPower (p : Q) (c : ProjectConfig) : ProjectConfig :=
  {| id := id c; name := name c; signatureDate := signatureDate c;
     powerKWc := p; typology := typology c;
     injectionType := injectionType c; investmentModel := investmentModel c;
     isSubcontracted := isSubcontracted c; overrides := overrides c;
     skippedPhases := skippedPhases c |}.

Definition overrideConstruction (q : Q) : Override.PhaseOverride :=
  {| Override.negotiationDuration := None; Override.urbanismDuration := None;
     Override.creDuration := None; Override.leaseDuration := None;
     Override.connectionDuration := None; Override.constructionDuration := Some q |}.

Definition skipConnection : Skip.SkippedPhases :=
  {| Skip.negotiation := None; Skip.urbanism := None; Skip.aoCre := None;
     Skip.leaseManagement := None; Skip.connection := Some true;
     Skip.construction := None |}.

Definition skipConstruction : Skip.SkippedPhases :=
  {| Skip.negotiation := None; Skip.urbanism := None; Skip.aoCre := None;
     Skip.leaseManagement := None; Skip.connection := None;
     Skip.construction := Some true |}.

(** The scenario turned into a self-consumption project signed on
    2025-04-20. *)
Definition lateSignature : ProjectConfig :=
  withSignature (ymd 2025 4 20) (withInjection AUTOCONSUMPTION scenario).

(** The scenario, subcontracted, with connection skipped and a construction
    override of -1 month. *)
Definition negativeWork : ProjectConfig :=
  withSubcontracted true
    (withOverrides (overrideConstruction (-1)) (withSkipped skipConnection scenario)).

(** The scenario with construction skipped. *)
Definition skippedWorks : ProjectConfig := withSkipped skipConstruction scenario.

(** The scenario with a construction override of 40 months, more than 36
    steps can find, and of 27 months, what 36 steps do find. *)
Definition fortyMonths : ProjectConfig := withOverrides (overrideConstruction 40) scenario.
Definition twentySevenMonths : ProjectConfig :=
  withOverrides (overrideConstruction 27) scenario.

(** ** The two sentences that do not hold as written *)

(** The optional gates of the milestone record, and the phase that owns
    each. *)
Inductive Gate := GLoi | GUrbanismOk | GLaureate | GLeaseSigned | GConstructionCompletion.

Definition isSome {A : Type} (o : option A) : bool :=
  match o with Some _ => true | None => false end.

(** Whether a milestone carries a date in the result. *)
Definition present (m : Milestones) (g : Gate) : bool :=
  match g with
  | GLoi => isSome (loi m)
  | GUrbanismOk => isSome (urbanismOk m)
  | GLaureate => isSome (laureate m)
  | GLeaseSigned => isSome (leaseSigned m)
  | GConstructionCompletion => true
  end.

(** The skip flag of the phase owning a milestone. *)
Definition ownerSkipped (s : Skip.SkippedPhases) (g : Gate) : bool :=
  match g with
  | GLoi => truthy (Skip.negotiation s)
  | GUrbanismOk => truthy (Skip.urbanism s)
  | GLaureate => truthy (Skip.aoCre s)
  | GLeaseSigned => truthy (Skip.leaseManagement s)
  | GConstructionCompletion => truthy (Skip.construction s)
  end.

(** The sentence "every other milestone is present iff its owning phase
    was not skipped", read literally on a configuration. *)
Definition milestones_iff_not_skipped (cfg : ProjectConfig) : Prop :=
  forall g, present (Result.milestones (calculateProjectTimeline cfg)) g
            = negb (ownerSkipped (skipped cfg) g).

(** The sentence of the month round trip, read literally on a date and a
    number of months. *)
Definition roundtrip_keeps_month (d : Date) (n : Z) : Prop :=
  let back := addMonths (addMonths d (inject_Z n)) (inject_Z (- n)) in
  getMonth back = getMonth d /\ getFullYear back = getFullYear d.

(** ** Vocabulary of the further properties *)

(** An override that is absent or not negative. *)
Definition notNegative (o : option Q) : Prop :=
  match o with Some q => (0 <= q)%Q | None => True end.

(** The longer of two durations. *)
Definition longer (a b : Q) : Q := if Qle_bool a b then b else a.

(** ** The chart grid ([components/GanttChart.tsx]) *)

Module Gantt.

Inductive Mode := detail | portfolio.

Definition MONTH_WIDTH : Q := 50.
Definition TOTAL_MONTHS_VIEW : nat := 60.

Record ChartMonth := {
  date : Date;
  label : string;
  isRestricted : bool;
  year : Z;
  monthIndex : Z }.

(** [Math.min(...dates)] on a list with a first element. *)
Definition Math_min (first : Z) (rest : list Z) : Z := fold_left Z.min rest first.

(** [effectiveStartDate] (lines 32-47).  [now] is what [new Date()] returns;
    [singleStartDate] is the optional [startDate] property. *)
Definition effectiveStartDate (mode : Mode) (singleStartDate : option Date)
    (projects : list ProjectConfig) (now : Date) : Date :=
  match mode, singleStartDate with
  | detail, Some singleStartDate =>
      let d := singleStartDate in
      setMonth d (getMonth d - 2)
  | _, _ =>
      match projects with
      | p :: ps =>
          let min := Math_min (getTime (signatureDate p))
                       (map (fun p => getTime (signatureDate p)) ps) in
          let d := min in
          setMonth d (getMonth d - 2)
      | [] => now
      end
  end.

Section Grid.
(** [d.toLocaleDateString('fr-FR', { month: 'short', year: '2-digit' })],
    left to the host. *)
Variable toLocaleLabel : Date -> string.

(** One turn of the loop of lines 55-65, for the index [i]. *)
Definition cell (start : Date) (i : Z) : ChartMonth :=
  let d := setMonth start (getMonth start + i) in
  {| date := d;
     label := toLocaleLabel d;
     isRestricted := isRestrictedMonth d;
     year := getFullYear d;
     monthIndex := getMonth d |}.

(** The loop [for (let i = 0; i < TOTAL_MONTHS_VIEW; i++)], with the
    number of turns left. *)
Fixpoint timelineLoop (turns : nat) (start : Date) (i : Z) (months : list ChartMonth)
    : list ChartMonth :=
  match turns with
  | O => months
  | S turns' => timelineLoop turns' start (i + 1) (months ++ [cell start i])
  end.

(** [timeline] (lines 50-67). *)
Definition timeline (effectiveStartDate : Date) : list ChartMonth :=
  let start := setDate effectiveStartDate 1 in
  timelineLoop TOTAL_MONTHS_VIEW start 0 [].

End Grid.

(** [getPosition] (lines 70-76); [None] is the [TypeError] of reading
    [timeline[0].date] on an empty grid. *)
Definition getPosition (timeline : list ChartMonth) (d : Date) : option Q :=
  match timeline with
  | [] => None
  | first :: _ =>
      let startView := date first in
      let diffTime := getTime d - getTime startView in
      let diffDays := (inject_Z diffTime / inject_Z (1000 * 3600 * 24))%Q in
      let pxPerDay := (MONTH_WIDTH / (3044 # 100))%Q in
      Some (diffDays * pxPerDay)%Q
  end.

(** [getWidth] (lines 78-83). *)
Definition getWidth (range : DateRange) : Q :=
  let diffTime := getTime (end_ range) - getTime (start range) in
  let diffDays := (inject_Z diffTime / inject_Z (1000 * 3600 * 24))%Q in
  let w := (diffDays * (MONTH_WIDTH / (3044 # 100)))%Q in
  if Qltb w 0 then 0%Q else w.

End Gantt.

(** ** The project list ([App.tsx]) *)

Module App.

Inductive SidebarTab := config | list_.

(** The pieces of React state that the project handlers read or write. *)
Record State := {
  projects : list ProjectConfig;
  currentId : string;
  viewMode : Gantt.Mode;
  sidebarTab : SidebarTab }.

(** The text of a non-negative integer inside a template literal. *)
Definition numberText (n : nat) : string := NilEmpty.string_of_uint (Nat.to_uint n).

(** [createNewProject] (lines 347-358).  [now] is what [new Date()]
    returns; its ISO date, read back by the engine, is midnight UTC of the
    same day. *)
Definition createNewProject (now : Date) (id : nat) : ProjectConfig :=
  {| id := "prj_" ++ numberText id;
     name := "Nouveau Projet " ++ numberText id;
     signatureDate := Day now * msPerDay;
     powerKWc := 500;
     typology := ROOF_EXISTING;
     injectionType := TOTAL_INJECTION;
     investmentModel := OWN_INVESTMENT;
     isSubcontracted := false;
     overrides := Override.none;
     skippedPhases := Skip.none |}.

(** The state of a first visit: nothing saved (lines 362-369). *)
Definition initial (now : Date) : State :=
  let projects := [createNewProject now 1] in
  {| projects := projects;
     currentId := match projects with p :: _ => id p | [] => "" end;
     viewMode := Gantt.detail;
     sidebarTab := config |}.

(** [currentProject]: [projects.find(p => p.id === currentId) || projects[0]]. *)
Definition currentProject (s : State) : option ProjectConfig :=
  match find (fun p => String.eqb (id p) (currentId s)) (projects s) with
  | Some p => Some p
  | None => hd_error (projects s)
  end.

(** [addProject] (lines 388-395). *)
Definition addProject (now : Date) (s : State) : State :=
  let newId := (List.length (projects s) + 1)%nat in
  let newP := createNewProject now newId in
  {| projects := projects s ++ [newP];
     currentId := id newP;
     viewMode := Gantt.detail;
     sidebarTab := config |}.

(** [deleteProject] (lines 397-402); [None] is the [TypeError] of reading
    [remaining[0].id] when nothing remains. *)
Definition deleteProject (s : State) (id_ : string) : option State :=
  if (List.length (projects s) <=? 1)%nat then Some s
  else
    let remaining := filter (fun p => negb (String.eqb (id p) id_)) (projects s) in
    if String.eqb (currentId s) id_ then
      match remaining with
      | [] => None
      | p :: _ =>
          Some {| projects := remaining; currentId := id p;
                  viewMode := viewMode s; sidebarTab := sidebarTab s |}
      end
    else
      Some {| projects := remaining; currentId := currentId s;
              viewMode := viewMode s; sidebarTab := sidebarTab s |}.

(** The keys of [SkippedPhases]. *)
Inductive PhaseKey :=
  negotiation | urbanism | aoCre | leaseManagement | connection | construction.

Definition getSkip (s : Skip.SkippedPhases) (k : PhaseKey) : option bool :=
  match k with
  | negotiation => Skip.negotiation s
  | urbanism => Skip.urbanism s
  | aoCre => Skip.aoCre s
  | leaseManagement => Skip.leaseManagement s
  | connection => Skip.connection s
  | construction => Skip.construction s
  end.

(** [{ ...s, [k]: v }]. *)
Definition setSkip (s : Skip.SkippedPhases) (k : PhaseKey) (v : bool) : Skip.SkippedPhases :=
  {| Skip.negotiation := match k with negotiation => Some v | _ => Skip.negotiation s end;
     Skip.urbanism := match k with urbanism => Some v | _ => Skip.urbanism s end;
     Skip.aoCre := match k with aoCre => Some v | _ => Skip.aoCre s end;
     Skip.leaseManagement :=
       match k with leaseManagement => Some v | _ => Skip.leaseManagement s end;
     Skip.connection := match k with connection => Some v | _ => Skip.connection s end;
     Skip.construction :=
       match k with construction => Some v | _ => Skip.construction s end |}.

(** The update of one project in [toggleSkipPhase] (lines 422-434). *)
Definition toggleProject (currentId : string) (phase : PhaseKey) (p : ProjectConfig)
    : ProjectConfig :=
  if negb (String.eqb (id p) currentId) then p
  else
    let currentSkip := skippedPhases p in
    withSkipped (setSkip currentSkip phase (negb (truthy (getSkip currentSkip phase)))) p.

Definition toggleSkipPhase (s : State) (phase : PhaseKey) : State :=
  {| projects := map (toggleProject (currentId s) phase) (projects s);
     currentId := currentId s; viewMode := viewMode s; sidebarTab := sidebarTab s |}.

(** The keys of [PhaseOverride]. *)
Inductive OverrideKey :=
  negotiationDuration | urbanismDuration | creDuration | leaseDuration
  | connectionDuration | constructionDuration.

Definition getOverride (o : Override.PhaseOverride) (k : OverrideKey) : option Q :=
  match k with
  | negotiationDuration => Override.negotiationDuration o
  | urbanismDuration => Override.urbanismDuration o
  | creDuration => Override.creDuration o
  | leaseDuration => Override.leaseDuration o
  | connectionDuration => Override.connectionDuration o
  | constructionDuration => Override.constructionDuration o
  end.

(** [{ ...o, [k]: v }], where [None] is [undefined]. *)
Definition setOverride (o : Override.PhaseOverride) (k : OverrideKey) (v : option Q)
    : Override.PhaseOverride :=
  {| Override.negotiationDuration :=
       match k with negotiationDuration => v | _ => Override.negotiationDuration o end;
     Override.urbanismDuration :=
       match k with urbanismDuration => v | _ => Override.urbanismDuration o end;
     Override.creDuration :=
       match k with creDuration => v | _ => Override.creDuration o end;
     Override.leaseDuration :=
       match k with leaseDuration => v | _ => Override.leaseDuration o end;
     Override.connectionDuration :=
       match k with connectionDuration => v | _ => Override.connectionDuration o end;
     Override.constructionDuration :=
       match k with constructionDuration => v | _ => Override.constructionDuration o end |}.

(** The update of one project in [handleOverrideChange] (lines 408-420).
    [num] is the outcome of [parseFloat(value)], [None] standing for [NaN]. *)
Definition overrideProject (currentId : string) (field : OverrideKey) (num : option Q)
    (p : ProjectConfig) : ProjectConfig :=
  if negb (String.eqb (id p) currentId) then p
  else withOverrides (setOverride (overrides p) field num) p.

Definition handleOverrideChange (s : State) (field : OverrideKey) (num : option Q) : State :=
  {| projects := map (overrideProject (currentId s) field num) (projects s);
     currentId := currentId s; viewMode := viewMode s; sidebarTab := sidebarTab s |}.

End App.

(** The ids of the projects of a state, in order. *)
Definition ids (s : App.State) : list string := map id (App.projects s).

(** [n] additions in a row. *)
Fixpoint additions (now : Date) (n : nat) (s : App.State) : App.State :=
  match n with
  | O => s
  | S n' => App.addProject now (additions now n' s)
  end.

(** Two configurations that differ at most by skip flags of the same
    truthiness. *)
Definition sameUpToSkipTruth (a b : ProjectConfig) : Prop :=
  id a = id b /\ name a = name b /\ signatureDate a = signatureDate b /\
  powerKWc a = powerKWc b /\ typology a = typology b /\
  injectionType a = injectionType b /\ investmentModel a = investmentModel b /\
  isSubcontracted a = isSubcontracted b /\ overrides a = overrides b /\
  forall k, truthy (App.getSkip (skippedPhases a) k)
            = truthy (App.getSkip (skippedPhases b) k).

(** ** Invalid dates and the range of time values

    A second embedding of the date utilities and of the engine, in which a
    [Date] may be invalid.  A date is [Some t], with [t] its time value, or
    [None] for an Invalid Date (time value [NaN]); a number read off a date
    is [Some n], or [None] for [NaN].  Every date that is built or set goes
    through [TimeClip], which turns a time value beyond 8.64e15 ms into
    [NaN].  The definitions carry the names of the source and of the
    embedding above, and follow ECMA-262 where a [NaN] enters: accessors
    return [NaN], setters leave the date invalid, arithmetic and
    [Math.max] return [NaN], and every comparison with [NaN] is false. *)

Module Clipped.

Definition maxTimeValue : Z := 8640000000000000.

Definition TimeClip (time : Z) : option Z :=
  if Z.abs time <=? maxTimeValue then Some time else None.

Definition Date : Type := option Z.

(** [new Date(value)], from a time value or from another date. *)
Definition newDate (value : option Z) : Date :=
  match value with Some t => TimeClip t | None => None end.

Definition getTime (d : Date) : option Z := d.
Definition getFullYear (d : Date) : option Z := option_map JSDate.getFullYear d.
Definition getMonth (d : Date) : option Z := option_map JSDate.getMonth d.
Definition getDate (d : Date) : option Z := option_map JSDate.getDate d.

Definition setMonth (d : Date) (month : option Q) : Date :=
  match d, month with
  | Some t, Some m => TimeClip (JSDate.setMonth t (ToInteger m))
  | _, _ => None
  end.

Definition setDate (d : Date) (date : option Z) : Date :=
  match d, date with
  | Some t, Some n => TimeClip (JSDate.setDate t n)
  | _, _ => None
  end.

(** [n + q], [n - q] and [n + k] on a number [n] that may be [NaN]. *)
Definition plus (n : option Z) (q : Q) : option Q :=
  option_map (fun m => (inject_Z m + q)%Q) n.
Definition minus (n : option Z) (q : Q) : option Q :=
  option_map (fun m => (inject_Z m - q)%Q) n.
Definition offset (n : option Z) (k : Z) : option Z :=
  option_map (fun m => m + k) n.

(** [Math.max(a, b)]. *)
Definition Math_max (a b : option Z) : option Z :=
  match a, b with
  | Some x, Some y => Some (Z.max x y)
  | _, _ => None
  end.

(** [a < b] on dates. *)
Definition lt (a b : Date) : bool :=
  match getTime a, getTime b with
  | Some x, Some y => x <? y
  | _, _ => false
  end.

Definition addMonths (date : Date) (months : Q) : Date :=
  let d := newDate date in
  setMonth d (plus (getMonth d) months).

(** When a date is invalid [months] is [NaN]; [NaN <= 0] is false, so the
    [NaN] is what is returned. *)
Definition diffMonths (d1 d2 : Date) : option Z :=
  match getFullYear d2, getFullYear d1, getMonth d1, getMonth d2 with
  | Some y2, Some y1, Some m1, Some m2 =>
      let months := (y2 - y1) * 12 in
      let months := months - m1 in
      let months := months + m2 in
      Some (if months <=? 0 then 0 else months)
  | _, _, _, _ => None
  end.

Definition subMonths (date : Date) (months : Q) : Date :=
  let d := newDate date in
  setMonth d (minus (getMonth d) months).

Definition isRestrictedMonth (date : Date) : bool :=
  match getMonth date with
  | Some m => (m =? 0) || (m =? 3) || (m =? 7)
  | None => false
  end.

Record DateRange := {
  start : Date;
  end_ : Date;
  durationMonths : option Q }.

Record Milestones := {
  loi : option Date;
  signature : Date;
  urbanismOk : option Date;
  laureate : option Date;
  leaseSigned : option Date;
  constructionCompletion : Date;
  cod : Date }.

Module Result.
Record PhaseResult := {
    negotiation : option DateRange;
    urbanism : option DateRange;
    aoCre : option DateRange;
    leaseManagement : option DateRange;
    connection : DateRange;
    construction : DateRange;
    operation : DateRange;
    milestones : Milestones;
    totalDurationMonths : option Z }.
End Result.

Record Walk := {
  validMonths : Z;
  cursor : Date;
  protection : Z }.

Definition walk_init (d : Date) : Walk :=
  {| validMonths := 0; cursor := newDate d; protection := 0 |}.

Definition walk_cond (workMonthsNeeded : Q) (s : Walk) : bool :=
  Qltb (inject_Z (validMonths s)) workMonthsNeeded && (protection s <? 36).

Definition backward_body (s : Walk) : Walk :=
  let prevMonth := subMonths (cursor s) 1 in
  {| validMonths := if negb (isRestrictedMonth prevMonth)
                    then validMonths s + 1 else validMonths s;
     cursor := prevMonth;
     protection := protection s + 1 |}.

Definition forward_body (s : Walk) : Walk :=
  let isRestricted := isRestrictedMonth (cursor s) in
  {| validMonths := if negb isRestricted
                    then validMonths s + 1 else validMonths s;
     cursor := addMonths (cursor s) 1;
     protection := protection s + 1 |}.

Section Engine.
Variable config : ProjectConfig.

Definition T0 : Date := newDate (Some (signatureDate config)).

  (** 1. Negotiation (lines 59-71). *)
Definition negotiationRange : option DateRange :=
    if negb (truthy (Skip.negotiation (skipped config))) then
      let negDuration :=
        orDefault (Override.negotiationDuration (overrides config)) (1 # 2) in
      let days := Math_round (negDuration * (3044 # 100)) in
      let negotiationStart := newDate T0 in
      let negotiationStart := setDate negotiationStart (offset (getDate T0) (- days)) in
      Some {| start := negotiationStart; end_ := T0;
              durationMonths := Some negDuration |}
    else None.

  (** 2. Urbanism (lines 75-85). *)
Definition urbanEnd : Date :=
    if negb (truthy (Skip.urbanism (skipped config)))
    then addMonths (newDate T0) (urbanDuration config)
    else newDate T0.

Definition urbanRange : option DateRange :=
    if negb (truthy (Skip.urbanism (skipped config))) then
      Some {| start := newDate T0; end_ := urbanEnd;
              durationMonths := Some (urbanDuration config) |}
    else None.

  (** 3. Security phase (lines 91-114). *)
Definition creRange : option DateRange :=
    if negb (truthy (Skip.aoCre (skipped config))) && Qltb 100 (P config)
       && InjectionType_eqb (injectionType config) TOTAL_INJECTION then
      let dur := orDefault (Override.creDuration (overrides config)) 4 in
      Some {| start := newDate urbanEnd; end_ := addMonths urbanEnd dur;
              durationMonths := Some dur |}
    else None.

Definition leaseRange : option DateRange :=
    if negb (truthy (Skip.leaseManagement (skipped config)))
       && InvestmentModel_eqb (investmentModel config) OWN_INVESTMENT then
      let dur := orDefault (Override.leaseDuration (overrides config)) 4 in
      Some {| start := newDate urbanEnd; end_ := addMonths urbanEnd dur;
              durationMonths := Some dur |}
    else None.

  (** The lock (lines 118-121). *)
Definition creEndDate : Date :=
    match creRange with Some r => end_ r | None => urbanEnd end.
Definition leaseEndDate : Date :=
    match leaseRange with Some r => end_ r | None => urbanEnd end.
Definition securityLockDate : Date :=
    newDate (Math_max (getTime creEndDate) (getTime leaseEndDate)).

  (** 4. Connection (lines 143-144); [connectionDuration] is the number
      computed above, no date enters it. *)
Definition connectionStart0 : Date := newDate securityLockDate.
Definition connectionEnd0 : Date :=
    addMonths connectionStart0 (connectionDuration config).

  (** 5. Construction: target end (lines 159-160) and backward placement
      (lines 162-184). *)
Definition targetConstructionEnd : Date :=
    let targetConstructionEnd := newDate connectionEnd0 in
    setDate targetConstructionEnd (offset (getDate targetConstructionEnd) (- 15)).

Definition constructionStart0 : Date :=
    if isSubcontracted config
    then subMonths targetConstructionEnd (workMonthsNeeded config)
    else cursor (while walk_fuel (walk_cond (workMonthsNeeded config)) backward_body
                   (walk_init targetConstructionEnd)).

  (** Stage 5 with its mutable locals (lines 147-233): the construction
      range with the final [connectionStart] and [connectionEnd]. *)
Definition constructionStage : DateRange * Date * Date :=
    let connectionStart := connectionStart0 in
    let connectionEnd := connectionEnd0 in
    if truthy (Skip.construction (skipped config)) then
      ({| start := connectionStart; end_ := connectionStart;
          durationMonths := Some 0%Q |},
       connectionStart, connectionEnd)
    else
      let workMonthsNeeded := workMonthsNeeded config in
      let constructionStartDate := constructionStart0 in
      let '(constructionStartDate, connectionStart, connectionEnd) :=
        if lt constructionStartDate securityLockDate then
          let constructionStartDate := newDate securityLockDate in
          if isSubcontracted config then
            let actualConstructionEnd :=
              addMonths constructionStartDate workMonthsNeeded in
            let newConnectionEnd := newDate actualConstructionEnd in
            let newConnectionEnd :=
              setDate newConnectionEnd (offset (getDate newConnectionEnd) 15) in
            if negb (truthy (Skip.connection (skipped config))) then
              let connectionEnd := newConnectionEnd in
              (constructionStartDate,
               subMonths connectionEnd (connectionDuration config), connectionEnd)
            else (constructionStartDate, connectionStart, connectionEnd)
          else
            let actualConstructionEnd :=
              cursor (while walk_fuel (walk_cond workMonthsNeeded) forward_body
                        (walk_init constructionStartDate)) in
            let newConnectionEnd := newDate actualConstructionEnd in
            let newConnectionEnd :=
              setDate newConnectionEnd (offset (getDate newConnectionEnd) 15) in
            if negb (truthy (Skip.connection (skipped config))) then
              let connectionEnd := newConnectionEnd in
              (constructionStartDate,
               subMonths connectionEnd (connectionDuration config), connectionEnd)
            else (constructionStartDate, connectionStart, connectionEnd)
        else (constructionStartDate, connectionStart, connectionEnd) in
      ({| start := constructionStartDate;
          end_ := newDate (offset (getTime connectionEnd) (- (15 * 24 * 60 * 60 * 1000)));
          durationMonths :=
            option_map inject_Z (diffMonths constructionStartDate connectionEnd) |},
       connectionStart, connectionEnd).

Definition finalNegotiationStart : Date :=
    match negotiationRange with Some r => start r | None => T0 end.

  (** 6. Operation (line 237). *)
Definition codDate : Date := addMonths (snd constructionStage) 1.

  (** The whole function (lines 53-260). *)
Definition calculateProjectTimeline : Result.PhaseResult :=
    let '(constructionRange, connectionStart, connectionEnd) := constructionStage in
    {| Result.negotiation := negotiationRange;
       Result.urbanism := urbanRange;
       Result.aoCre := creRange;
       Result.leaseManagement := leaseRange;
       Result.connection :=
         {| start := connectionStart; end_ := connectionEnd;
            durationMonths := Some (connectionDuration config) |};
       Result.construction := constructionRange;
       Result.operation :=
         {| start := codDate; end_ := addMonths codDate 24;
            durationMonths := Some 24%Q |};
       Result.milestones :=
         {| loi := match negotiationRange with Some _ => Some T0 | None => None end;
            signature := T0;
            urbanismOk := match urbanRange with Some _ => Some urbanEnd | None => None end;
            laureate := option_map end_ creRange;
            leaseSigned := option_map end_ leaseRange;
            constructionCompletion := end_ constructionRange;
            cod := codDate |};
       Result.totalDurationMonths := diffMonths finalNegotiationStart codDate |}.

End Engine.

End Clipped.

Definition overrideUrbanism (q : Q) : Override.PhaseOverride :=
  {| Override.negotiationDuration := None; Override.urbanismDuration := Some q;
     Override.creDuration := None; Override.leaseDuration := None;
     Override.connectionDuration := None; Override.constructionDuration := None |}.

Definition hugeUrbanism : ProjectConfig := withOverrides (overrideUrbanism 4000000) scenario.
Definition hugeWork : ProjectConfig :=
  withSubcontracted true
    (withOverrides (overrideConstruction 4000000) (withSkipped skipConnection scenario)).


(** A range and a result of the first embedding, read as ones in which
    every date is valid. *)
Definition validRange (r : DateRange) : Clipped.DateRange :=
  {| Clipped.start := Some (start r); Clipped.end_ := Some (end_ r);
     Clipped.durationMonths := Some (durationMonths r) |}.

Definition validResult (r : Result.PhaseResult) : Clipped.Result.PhaseResult :=
  {| Clipped.Result.negotiation := option_map validRange (Result.negotiation r);
     Clipped.Result.urbanism := option_map validRange (Result.urbanism r);
     Clipped.Result.aoCre := option_map validRange (Result.aoCre r);
     Clipped.Result.leaseManagement := option_map validRange (Result.leaseManagement r);
     Clipped.Result.connection := validRange (Result.connection r);
     Clipped.Result.construction := validRange (Result.construction r);
     Clipped.Result.operation := validRange (Result.operation r);
     Clipped.Result.milestones :=
       {| Clipped.loi := option_map Some (loi (Result.milestones r));
          Clipped.signature := Some (signature (Result.milestones r));
          Clipped.urbanismOk := option_map Some (urbanismOk (Result.milestones r));
          Clipped.laureate := option_map Some (laureate (Result.milestones r));
          Clipped.leaseSigned := option_map Some (leaseSigned (Result.milestones r));
          Clipped.constructionCompletion :=
            Some (constructionCompletion (Result.milestones r));
          Clipped.cod := Some (cod (Result.milestones r)) |};
     Clipped.Result.totalDurationMonths := Some (Result.totalDurationMonths r) |}.

(** The sentence "totalDurationMonths >= 0", read on the number the engine
    returns: a number that is not [NaN] and not negative. *)
Definition total_not_negative (cfg : ProjectConfig) : Prop :=
  exists n,
    Clipped.Result.totalDurationMonths (Clipped.calculateProjectTimeline cfg) = Some n /\
    0 <= n.

(** * Properties *)

(** ** Sanity of the calendar model *)

Example epoch_is_day0 : civil_from_days 0 = (1970, 0, 1).
Proof. reflexivity. Qed.

Example leap_days :
  civil_from_days (days_from_civil 2024 1 29) = (2024, 1, 29) /\
  civil_from_days (days_from_civil 2000 1 29) = (2000, 1, 29) /\
  civil_from_days (days_from_civil 1900 1 29) = (1900, 2, 1) /\
  civil_from_days (-1) = (1969, 11, 31).
Proof. repeat split. Qed.

Example month_rollover :
  addMonths (ymd 2025 1 31) 1 = ymd 2025 3 3 /\
  addMonths (ymd 2024 1 31) 1 = ymd 2024 3 2 /\
  subMonths (ymd 2025 3 31) 1 = ymd 2025 3 3 /\
  addMonths (ymd 2025 11 15) 2 = ymd 2026 1 15.
Proof. vm_compute. repeat split. Qed.

Example restricted_months :
  map (fun m => isRestrictedMonth (ymd 2025 m 10)) [1; 2; 3; 4; 5; 6; 7; 8; 9; 10; 11; 12]
  = [true; false; false; true; false; false; false; true; false; false; false; false].
Proof. vm_compute. reflexivity. Qed.

(** ** The calendar: splitting a day number and putting it back *)

Lemma yearLen_cases : forall y,
  (yearLen y = 366 /\ isLeap (y + 1) = true /\ (y + 1) mod 4 = 0 /\ ((y + 1) mod 100 <> 0 \/ (y + 1) mod 400 = 0)) \/
  (yearLen y = 365 /\ isLeap (y + 1) = false /\ ((y + 1) mod 4 <> 0 \/ ((y + 1) mod 100 = 0 /\ (y + 1) mod 400 <> 0))).
Proof.
  intros y. unfold yearLen, isLeap.
  destruct ((y + 1) mod 4 =? 0) eqn:E4; destruct ((y + 1) mod 100 =? 0) eqn:E100;
  destruct ((y + 1) mod 400 =? 0) eqn:E400; simpl; lia.
Qed.

Lemma yoe_split : forall doe, 0 <= doe < era_days ->
  0 <= yoe_of doe < 400 /\
  yearStart (yoe_of doe) <= doe < yearStart (yoe_of doe) + yearLen (yoe_of doe).
Proof.
  intros doe H. unfold era_days in H.
  destruct (yearLen_cases (yoe_of doe)) as [(-> & _ & A)|(-> & _ & A)]; revert A;
  unfold yoe_of, yearStart; Z.div_mod_to_equations; lia.
Qed.

Lemma yoe_unsplit : forall yoe doy, 0 <= yoe < 400 -> 0 <= doy < yearLen yoe ->
  yoe_of (yearStart yoe + doy) = yoe /\ 0 <= yearStart yoe + doy < era_days.
Proof.
  intros yoe doy Hy Hd. unfold era_days.
  destruct (yearLen_cases yoe) as [(E & _ & A)|(E & _ & A)]; rewrite E in Hd; revert A;
  unfold yoe_of, yearStart; Z.div_mod_to_equations; lia.
Qed.

Lemma mp_split : forall doy, 0 <= doy < 366 ->
  0 <= mp_of doy < 12 /\ monthStart (mp_of doy) <= doy /\
  (mp_of doy < 11 -> doy < monthStart (mp_of doy + 1)).
Proof.
  intros doy H. unfold mp_of, monthStart. Z.div_mod_to_equations; lia.
Qed.

Lemma mp_unsplit : forall mp d, 0 <= mp < 12 -> 0 <= d ->
  (mp < 11 -> monthStart mp + d < monthStart (mp + 1)) -> (mp = 11 -> d < 29) ->
  mp_of (monthStart mp + d) = mp.
Proof.
  intros mp d H H1. unfold mp_of, monthStart. Z.div_mod_to_equations; lia.
Qed.

Lemma isLeap_era : forall y e, isLeap (y + e * 400) = isLeap y.
Proof.
  intros y e. unfold isLeap.
  replace ((y + e * 400) mod 4) with (y mod 4) by (Z.div_mod_to_equations; lia).
  replace ((y + e * 400) mod 100) with (y mod 100) by (Z.div_mod_to_equations; lia).
  replace ((y + e * 400) mod 400) with (y mod 400) by (Z.div_mod_to_equations; lia).
  reflexivity.
Qed.

Lemma civil_valid : forall z y m d, civil_from_days z = (y, m, d) ->
  0 <= m < 12 /\ 1 <= d <= daysInMonth y m /\ days_from_civil y m d = z.
Proof.
  intros z y m d E. unfold civil_from_days in E.
  set (z' := z + epoch_shift) in *.
  set (era := z' / era_days) in *.
  set (doe := z' mod era_days) in *.
  assert (Hdoe : 0 <= doe < era_days) by (apply Z.mod_pos_bound; reflexivity).
  assert (Hz : z + epoch_shift = era * era_days + doe)
    by (unfold era, doe, z', era_days; Z.div_mod_to_equations; lia).
  destruct (yoe_split doe Hdoe) as (Hy & Hlo & Hhi).
  set (yoe := yoe_of doe) in *.
  set (doy := doe - yearStart yoe) in *.
  assert (Hdoy : 0 <= doy < 366).
  { unfold doy. destruct (yearLen_cases yoe) as [(L & _)|(L & _)]; lia. }
  destruct (mp_split doy Hdoy) as (Hmp & Hms & Hme).
  set (mp := mp_of doy) in *.
  injection E as Ey Em Ed.
  fold (unshiftMonth mp) in Em, Ey. rewrite Em in Ey.
  assert (Hdd : doy = doe - yearStart yoe) by reflexivity.
  clearbody mp doy yoe doe era z'.
  assert (Hm : 0 <= m < 12 /\ shiftMonth m = mp /\ (m <? 2) = (10 <=? mp)).
  { rewrite <- Em. unfold shiftMonth, unshiftMonth. destruct (mp <? 10) eqn:E10.
    - destruct (mp + 2 <? 2) eqn:E2; lia.
    - destruct (mp - 10 <? 2) eqn:E2; lia. }
  destruct Hm as (Hm & Hsh & Hlt).
  assert (Hy' : (if m <? 2 then y - 1 else y) = yoe + era * 400)
    by (destruct (m <? 2); lia).
  split; [exact Hm|]. split.
  - (* day of month *)
    split; [lia|].
    unfold daysInMonth.
    destruct (m =? 1) eqn:E1.
    + assert (Hfeb : mp = 11) by (unfold shiftMonth in Hsh; destruct (m <? 2); lia).
      assert (Hyy : y = (yoe + 1) + era * 400) by (destruct (m <? 2); lia).
      rewrite Hyy, isLeap_era.
      assert (Hms11 : monthStart mp = 337) by (rewrite Hfeb; reflexivity).
      destruct (yearLen_cases yoe) as [(L & -> & _)|(L & -> & _)]. all: lia.
    + assert (Hnf : mp <> 11) by (unfold shiftMonth in Hsh; destruct (m <? 2); lia).
      assert (Hme' := Hme ltac:(lia)).
      assert (Hc : mp = 0 \/ mp = 1 \/ mp = 2 \/ mp = 3 \/ mp = 4 \/ mp = 5 \/ mp = 6
                   \/ mp = 7 \/ mp = 8 \/ mp = 9 \/ mp = 10) by lia.
      rewrite <- Em.
      repeat (destruct Hc as [Hc|Hc]); rewrite Hc in *; simpl in *;
        unfold monthStart in *; simpl in *. all: Z.div_mod_to_equations; lia.
  - unfold days_from_civil.
    fold (shiftMonth m). rewrite Hsh, Hy'.
    replace ((yoe + era * 400) / 400) with era by (Z.div_mod_to_equations; lia).
    replace ((yoe + era * 400) mod 400) with yoe by (Z.div_mod_to_equations; lia).
    unfold era_days in *. lia.
Qed.

Lemma daysInMonth_shift : forall y m, 0 <= m < 12 ->
  let mp := shiftMonth m in
  (mp < 11 -> daysInMonth y m = monthStart (mp + 1) - monthStart mp) /\
  (mp = 11 -> daysInMonth y m = if isLeap y then 29 else 28).
Proof.
  intros y m Hm.
  assert (Hc : m = 0 \/ m = 1 \/ m = 2 \/ m = 3 \/ m = 4 \/ m = 5 \/ m = 6
               \/ m = 7 \/ m = 8 \/ m = 9 \/ m = 10 \/ m = 11) by lia.
  repeat (destruct Hc as [Hc|Hc]); subst m; cbv [shiftMonth daysInMonth monthStart];
    simpl; split; intros; try reflexivity; try lia.
Qed.

Lemma civil_of_days : forall y m d, 0 <= m < 12 -> 1 <= d <= daysInMonth y m ->
  civil_from_days (days_from_civil y m d) = (y, m, d).
Proof.
  intros y m d Hm Hd.
  destruct (daysInMonth_shift y m Hm) as (Hlen & Hfeb).
  unfold days_from_civil, civil_from_days.
  fold (shiftMonth m) in *.
  set (y' := if m <? 2 then y - 1 else y).
  set (mp := shiftMonth m) in *.
  set (era := y' / 400). set (yoe := y' mod 400).
  assert (Hy' : y' = era * 400 + yoe) by (unfold era, yoe; Z.div_mod_to_equations; lia).
  assert (Hyoe : 0 <= yoe < 400) by (apply Z.mod_pos_bound; reflexivity).
  assert (Hmp : 0 <= mp < 12 /\ unshiftMonth mp = m /\ (mp = 11 <-> m = 1)
                /\ (m <? 2) = (10 <=? mp)).
  { unfold mp, shiftMonth, unshiftMonth. destruct (m <? 2) eqn:E2.
    - destruct (m + 10 <? 10) eqn:E10; destruct (10 <=? m + 10) eqn:E3; lia.
    - destruct (m - 2 <? 10) eqn:E10; destruct (10 <=? m - 2) eqn:E3; lia. }
  destruct Hmp as (Hmp & Hun & Hfebm & Hlt).
  assert (Hleap : mp = 11 -> isLeap y = isLeap (yoe + 1)).
  { intros F. assert (Hm1 : m = 1) by (apply Hfebm; exact F).
    replace y with ((yoe + 1) + era * 400).
    - apply isLeap_era.
    - unfold y' in Hy'. rewrite Hm1 in Hy'. simpl in Hy'. lia. }
  assert (Hms : 0 <= monthStart mp <= 337 /\ (mp = 11 -> monthStart mp = 337)
                /\ (mp < 11 -> monthStart (mp + 1) <= 337)).
  { unfold monthStart. Z.div_mod_to_equations. lia. }
  set (doy := monthStart mp + (d - 1)).
  assert (Hdoy : 0 <= doy < yearLen yoe).
  { unfold doy. destruct (Z.eq_dec mp 11) as [F|F].
    - rewrite (Hfeb F), (Hleap F) in Hd.
      destruct (yearLen_cases yoe) as [(L & E & _)|(L & E & _)]; rewrite E in Hd; lia.
    - rewrite (Hlen ltac:(lia)) in Hd.
      destruct (yearLen_cases yoe) as [(L & _)|(L & _)]; lia. }
  destruct (yoe_unsplit yoe doy Hyoe Hdoy) as (Hyo & Hrange).
  replace (era * era_days + yearStart yoe + monthStart mp + (d - 1) - epoch_shift + epoch_shift)
    with (yearStart yoe + doy + era * era_days) by (unfold doy; lia).
  replace ((yearStart yoe + doy + era * era_days) / era_days) with era
    by (unfold era_days in *; Z.div_mod_to_equations; lia).
  replace ((yearStart yoe + doy + era * era_days) mod era_days) with (yearStart yoe + doy)
    by (unfold era_days in *; Z.div_mod_to_equations; lia).
  rewrite Hyo.
  replace (yearStart yoe + doy - yearStart yoe) with doy by lia.
  assert (Hmpo : mp_of doy = mp).
  { unfold doy. apply mp_unsplit.
    - exact Hmp.
    - lia.
    - intros F. rewrite (Hlen F) in Hd. lia.
    - intros F. rewrite (Hfeb F) in Hd. destruct (isLeap y); lia. }
  rewrite Hmpo. fold (unshiftMonth mp). rewrite Hun.
  f_equal; [f_equal|].
  - unfold y' in Hy'. destruct (m <? 2); lia.
  - unfold doy. lia.
Qed.

Lemma era_year : forall y,
  (y / 400) * era_days + yearStart (y mod 400) = 365 * y + leapDays y.
Proof.
  intros y. unfold era_days, yearStart, leapDays. Z.div_mod_to_equations; lia.
Qed.

Lemma leapDays_step : forall y, leapDays y <= leapDays (y + 1).
Proof.
  intros y. unfold leapDays. Z.div_mod_to_equations; lia.
Qed.

Lemma leapDays_mono : forall a b, a <= b -> leapDays a <= leapDays b.
Proof.
  intros a b H. replace b with (a + (b - a)) by lia.
  assert (Hn : 0 <= b - a) by lia. revert Hn. generalize (b - a). clear H b.
  apply natlike_ind.
  - rewrite Z.add_0_r. lia.
  - intros x Hx IH. replace (a + Z.succ x) with (a + x + 1) by lia.
    pose proof (leapDays_step (a + x)). lia.
Qed.

Lemma monthStart_mono : forall a b, 0 <= a <= b -> b < 12 ->
  0 <= monthStart a <= monthStart b /\ monthStart b <= 337.
Proof.
  intros a b H1 H2. unfold monthStart. Z.div_mod_to_equations; lia.
Qed.

Lemma firstOfMonth_index : forall y k,
  days_from_civil (y + k / 12) (k mod 12) 1 =
  365 * ((12 * y + k - 2) / 12) + leapDays ((12 * y + k - 2) / 12)
  + monthStart ((12 * y + k - 2) mod 12) - epoch_shift.
Proof.
  intros y k. unfold days_from_civil.
  rewrite <- era_year.
  assert (E1 : (if k mod 12 <? 2 then y + k / 12 - 1 else y + k / 12) = (12 * y + k - 2) / 12).
  { destruct (k mod 12 <? 2) eqn:E; Z.div_mod_to_equations; lia. }
  assert (E2 : (if k mod 12 <? 2 then k mod 12 + 10 else k mod 12 - 2) = (12 * y + k - 2) mod 12).
  { destruct (k mod 12 <? 2) eqn:E; Z.div_mod_to_equations; lia. }
  rewrite E1, E2. lia.
Qed.

Lemma firstOfMonth_mono : forall y k1 k2, k1 <= k2 ->
  days_from_civil (y + k1 / 12) (k1 mod 12) 1 <= days_from_civil (y + k2 / 12) (k2 mod 12) 1.
Proof.
  intros y k1 k2 H. rewrite !firstOfMonth_index.
  set (M1 := 12 * y + k1 - 2). set (M2 := 12 * y + k2 - 2).
  assert (HM : M1 <= M2) by (unfold M1, M2; lia).
  clearbody M1 M2.
  assert (Hr1 : 0 <= M1 mod 12 < 12) by (apply Z.mod_pos_bound; lia).
  assert (Hr2 : 0 <= M2 mod 12 < 12) by (apply Z.mod_pos_bound; lia).
  pose proof (monthStart_mono 0 (M1 mod 12) ltac:(lia) ltac:(lia)) as B1.
  pose proof (monthStart_mono 0 (M2 mod 12) ltac:(lia) ltac:(lia)) as B2.
  destruct (Z.eq_dec (M1 / 12) (M2 / 12)) as [E|E].
  - rewrite E.
    assert (M1 mod 12 <= M2 mod 12) by (Z.div_mod_to_equations; lia).
    pose proof (monthStart_mono (M1 mod 12) (M2 mod 12) ltac:(lia) ltac:(lia)). lia.
  - assert (M1 / 12 + 1 <= M2 / 12) by (Z.div_mod_to_equations; lia).
    pose proof (leapDays_mono (M1 / 12) (M2 / 12) ltac:(lia)). lia.
Qed.

(** Strict version, one month apart: a month has at least 28 days. *)
Lemma firstOfMonth_step : forall y k,
  days_from_civil (y + k / 12) (k mod 12) 1 + 28
  <= days_from_civil (y + (k + 1) / 12) ((k + 1) mod 12) 1.
Proof.
  intros y k. rewrite !firstOfMonth_index.
  replace (12 * y + (k + 1) - 2) with ((12 * y + k - 2) + 1) by lia.
  set (M := 12 * y + k - 2). clearbody M.
  assert (Hr : 0 <= M mod 12 < 12) by (apply Z.mod_pos_bound; lia).
  destruct (Z.eq_dec (M mod 12) 11) as [E|E].
  - assert (E1 : (M + 1) / 12 = M / 12 + 1) by (Z.div_mod_to_equations; lia).
    assert (E2 : (M + 1) mod 12 = 0) by (Z.div_mod_to_equations; lia).
    rewrite E1, E2, E. pose proof (leapDays_step (M / 12)).
    change (monthStart 11) with 337. change (monthStart 0) with 0. lia.
  - assert (E1 : (M + 1) / 12 = M / 12) by (Z.div_mod_to_equations; lia).
    assert (E2 : (M + 1) mod 12 = M mod 12 + 1) by (Z.div_mod_to_equations; lia).
    rewrite E1, E2. generalize dependent (M mod 12). intros r Hr _ _.
    unfold monthStart. Z.div_mod_to_equations; lia.
Qed.

(** ** [Date] accessors and setters *)

Lemma MakeDate_Day : forall t, MakeDate (Day t) (TimeWithinDay t) = t.
Proof.
  intros t. unfold MakeDate, Day, TimeWithinDay, msPerDay. Z.div_mod_to_equations; lia.
Qed.

Lemma TimeWithinDay_range : forall t, 0 <= TimeWithinDay t < msPerDay.
Proof. intros t. apply Z.mod_pos_bound. reflexivity. Qed.

Lemma Day_MakeDate : forall d tm, 0 <= tm < msPerDay ->
  Day (MakeDate d tm) = d /\ TimeWithinDay (MakeDate d tm) = tm.
Proof.
  intros d tm H. unfold MakeDate, Day, TimeWithinDay, msPerDay in *.
  Z.div_mod_to_equations; lia.
Qed.

Lemma civil_getters : forall t,
  civil_from_days (Day t) = (getFullYear t, getMonth t, getDate t).
Proof.
  intros t. unfold getFullYear, getMonth, getDate.
  destruct (civil_from_days (Day t)) as [[y m] d]. reflexivity.
Qed.

Lemma date_valid : forall t,
  0 <= getMonth t < 12 /\ 1 <= getDate t <= daysInMonth (getFullYear t) (getMonth t)
  /\ days_from_civil (getFullYear t) (getMonth t) (getDate t) = Day t.
Proof. intros t. apply civil_valid, civil_getters. Qed.

Lemma days_from_civil_day : forall y m d k,
  days_from_civil y m (d + k) = days_from_civil y m d + k.
Proof. intros. unfold days_from_civil. lia. Qed.

Lemma MakeDay_in_range : forall y m d, 0 <= m < 12 ->
  MakeDay y m d = days_from_civil y m d.
Proof.
  intros y m d H. unfold MakeDay.
  replace (m / 12) with 0 by (Z.div_mod_to_equations; lia).
  replace (m mod 12) with m by (Z.div_mod_to_equations; lia).
  rewrite Z.add_0_r.
  replace d with (1 + (d - 1)) at 2 by lia. rewrite days_from_civil_day. lia.
Qed.

Lemma MakeDay_self : forall t k,
  MakeDay (getFullYear t) (getMonth t) (getDate t + k) = Day t + k.
Proof.
  intros t k. destruct (date_valid t) as (Hm & _ & Hd).
  rewrite MakeDay_in_range by exact Hm.
  rewrite days_from_civil_day, Hd. reflexivity.
Qed.

(** [setDate] to the current day of month plus [k] moves the date by [k] days. *)
Lemma setDate_shift : forall t k, setDate t (getDate t + k) = t + k * msPerDay.
Proof.
  intros t k. unfold setDate. rewrite MakeDay_self.
  pose proof (MakeDate_Day t). unfold MakeDate in *. lia.
Qed.

Lemma setMonth_same : forall t, setMonth t (getMonth t) = t.
Proof.
  intros t. unfold setMonth.
  replace (getDate t) with (getDate t + 0) by lia.
  rewrite MakeDay_self, Z.add_0_r. apply MakeDate_Day.
Qed.

Lemma MakeDay_month_mono : forall y k1 k2 d, k1 <= k2 -> MakeDay y k1 d <= MakeDay y k2 d.
Proof.
  intros y k1 k2 d H. unfold MakeDay. pose proof (firstOfMonth_mono y k1 k2 H). lia.
Qed.

Lemma MakeDate_mono : forall d1 d2 tm, d1 <= d2 -> MakeDate d1 tm <= MakeDate d2 tm.
Proof. intros. unfold MakeDate, msPerDay. lia. Qed.

(** Setting an earlier (or the same) month index never moves a date forward. *)
Lemma setMonth_le : forall t k, k <= getMonth t -> setMonth t k <= t.
Proof.
  intros t k H. rewrite <- (setMonth_same t) at 2. unfold setMonth.
  apply MakeDate_mono, MakeDay_month_mono, H.
Qed.

Lemma setMonth_ge : forall t k, getMonth t <= k -> t <= setMonth t k.
Proof.
  intros t k H. rewrite <- (setMonth_same t) at 1. unfold setMonth.
  apply MakeDate_mono, MakeDay_month_mono, H.
Qed.

(** When the day of month exists in the month aimed at, [setMonth] lands
    on that very day. *)
Lemma setMonth_fields : forall t k,
  getDate t <= daysInMonth (getFullYear t + k / 12) (k mod 12) ->
  getFullYear (setMonth t k) = getFullYear t + k / 12 /\
  getMonth (setMonth t k) = k mod 12 /\
  getDate (setMonth t k) = getDate t /\
  TimeWithinDay (setMonth t k) = TimeWithinDay t.
Proof.
  intros t k H. destruct (date_valid t) as (Hm & Hd & _).
  assert (Hk : 0 <= k mod 12 < 12) by (apply Z.mod_pos_bound; lia).
  destruct (Day_MakeDate (MakeDay (getFullYear t) k (getDate t)) (TimeWithinDay t)
              (TimeWithinDay_range t)) as (HD & HT).
  assert (HC : civil_from_days (Day (setMonth t k))
               = (getFullYear t + k / 12, k mod 12, getDate t)).
  { unfold setMonth. rewrite HD. unfold MakeDay.
    replace (days_from_civil (getFullYear t + k / 12) (k mod 12) 1 + getDate t - 1)
      with (days_from_civil (getFullYear t + k / 12) (k mod 12) (1 + (getDate t - 1)))
      by (rewrite days_from_civil_day; lia).
    replace (1 + (getDate t - 1)) with (getDate t) by lia.
    apply civil_of_days; [exact Hk | lia]. }
  unfold getFullYear, getMonth, getDate in *. rewrite HC. simpl.
  repeat split; try reflexivity. exact HT.
Qed.

Lemma ToInteger_inject_Z : forall n, ToInteger (inject_Z n) = n.
Proof. intros n. unfold ToInteger. simpl. apply Z.quot_1_r. Qed.

Lemma ToInteger_plus_Z : forall a n, ToInteger (inject_Z a + inject_Z n) = a + n.
Proof.
  intros a n. unfold ToInteger. simpl. rewrite Z.quot_1_r. lia.
Qed.

(** Truncating [a - w] towards zero stays at or below a non-negative
    integer [a] as soon as [-1 < w]. *)
Lemma ToInteger_sub_le : forall a w, 0 <= a -> (-1 < w)%Q ->
  ToInteger (inject_Z a - w) <= a.
Proof.
  intros a [wn wd] Ha Hw. unfold Qlt in Hw. simpl in Hw.
  unfold ToInteger. simpl.
  assert (Hn : - Z.pos wd < wn) by lia.
  destruct (Z_lt_le_dec (a * Z.pos wd + - wn * 1) 0) as [Hneg|Hpos].
  - pose proof (Z.quot_opp_l (- (a * Z.pos wd + - wn * 1)) (Z.pos wd) ltac:(lia)) as Ho.
    rewrite Z.opp_involutive in Ho. rewrite Ho.
    pose proof (Z.quot_pos (- (a * Z.pos wd + - wn * 1)) (Z.pos wd) ltac:(lia) ltac:(lia)).
    lia.
  - rewrite Z.quot_div_nonneg by lia.
    apply Z.lt_succ_r, Z.div_lt_upper_bound; nia.
Qed.

(** ** Bounded loops and the two seasonality walks *)

Section While.
Context {St : Type} (cond : St -> bool) (body : St -> St).

Lemma while_iter : forall fuel s,
    exists j, (j <= fuel)%nat /\
      while fuel cond body s = Nat.iter j body s /\
      (forall i, (i < j)%nat -> cond (Nat.iter i body s) = true) /\
      (j = fuel \/ cond (Nat.iter j body s) = false).
  Proof.
    induction fuel as [|fuel IH]; intros s.
    - exists O. simpl. split; [|split; [|split]]; auto. intros i Hi. inversion Hi.
    - simpl. destruct (cond s) eqn:C.
      + destruct (IH (body s)) as (j & Hj & Hw & Hbefore & Hstop).
        exists (S j). split; [|split; [|split]].
        * lia.
        * rewrite Nat.iter_succ_r. exact Hw.
        * intros [|i] Hi; [exact C|]. rewrite Nat.iter_succ_r. apply Hbefore. lia.
        * destruct Hstop as [->|Hstop]; [left; reflexivity|right].
          rewrite Nat.iter_succ_r. exact Hstop.
      + exists O. simpl. split; [|split; [|split]]; auto; try lia.
  Qed.

Lemma while_more_fuel : forall fuel s, cond (while fuel cond body s) = false ->
    forall extra, while (fuel + extra) cond body s = while fuel cond body s.
  Proof.
    induction fuel as [|fuel IH]; intros s H extra.
    - simpl in *. destruct extra; simpl; [reflexivity|]. rewrite H. reflexivity.
    - simpl in *. destruct (cond s) eqn:C; [|reflexivity]. apply IH, H.
  Qed.

Lemma while_ext : forall body', (forall s, body s = body' s) ->
    forall fuel s, while fuel cond body s = while fuel cond body' s.
  Proof.
    intros body' E. induction fuel as [|fuel IH]; intros s; simpl.
    - reflexivity.
    - destruct (cond s); [|reflexivity]. rewrite E. apply IH.
  Qed.
End While.

Lemma backward_body_step : forall s, backward_body s = stepWalk backCounted backStep s.
Proof.
  intros s. cbv beta zeta delta [backward_body stepWalk backCounted backStep].
  reflexivity.
Qed.

Lemma forward_body_step : forall s, forward_body s = stepWalk fwdCounted fwdStep s.
Proof.
  intros s. cbv beta zeta delta [forward_body stepWalk fwdCounted fwdStep].
  reflexivity.
Qed.

Section Walks.
Variables (counted : Date -> bool) (next : Date -> Date).

Lemma iter_stepWalk : forall k c,
    Nat.iter k (stepWalk counted next) (walk_init c) =
    {| validMonths := productive counted next k c;
       cursor := trail next k c;
       protection := Z.of_nat k |}.
  Proof.
    induction k as [|k IH]; intros c.
    - reflexivity.
    - rewrite Nat.iter_succ, IH. unfold stepWalk. cbn [validMonths cursor protection].
      f_equal.
      + cbn [productive]. destruct (counted (trail next k c)); lia.
      + lia.
  Qed.

  (** What a walk computes: it stops after [k <= 36] steps, at the first
      [k] where the productive months reach [work] or, failing that, at 36. *)
Lemma walk_result : forall work c,
    exists k, (k <= 36)%nat /\
      while walk_fuel (walk_cond work) (stepWalk counted next) (walk_init c) =
        {| validMonths := productive counted next k c;
           cursor := trail next k c;
           protection := Z.of_nat k |} /\
      (forall i, (i < k)%nat -> (inject_Z (productive counted next i c) < work)%Q) /\
      (k = 36%nat \/ (work <= inject_Z (productive counted next k c))%Q).
  Proof.
    intros work c.
    destruct (while_iter (walk_cond work) (stepWalk counted next) walk_fuel (walk_init c))
      as (k & Hk & Hw & Hbefore & Hstop).
    exists k. rewrite Hw, iter_stepWalk. split; [|split; [|split]].
    - exact Hk.
    - reflexivity.
    - intros i Hi. specialize (Hbefore i Hi). rewrite iter_stepWalk in Hbefore.
      unfold walk_cond, Qltb in Hbefore. cbn [validMonths protection] in Hbefore.
      apply andb_true_iff in Hbefore. destruct Hbefore as (Hv & _).
      apply negb_true_iff in Hv. apply Qnot_le_lt. intros Hle.
      apply Qle_bool_iff in Hle. congruence.
    - destruct Hstop as [Hstop|Hstop]; [left; exact Hstop|].
      rewrite iter_stepWalk in Hstop. unfold walk_cond, Qltb in Hstop.
      cbn [validMonths protection] in Hstop.
      apply andb_false_iff in Hstop. destruct Hstop as [Hv|Hp].
      + right. apply negb_false_iff in Hv. apply Qle_bool_iff. exact Hv.
      + left. unfold walk_fuel in Hk. lia.
  Qed.

  (** Either walk leaves its loop because the loop condition is false. *)
Lemma walk_exits : forall work c,
    let w := while walk_fuel (walk_cond work) (stepWalk counted next) (walk_init c) in
    walk_cond work w = false /\ 0 <= protection w <= 36.
  Proof.
    intros work c w. subst w.
    destruct (walk_result work c) as (k & Hk & -> & _ & Hstop).
    unfold walk_cond, Qltb. cbn [validMonths protection]. split; [|lia].
    destruct Hstop as [->|Hle].
    - apply andb_false_iff. right. reflexivity.
    - apply andb_false_iff. left. apply negb_false_iff, Qle_bool_iff, Hle.
  Qed.
End Walks.

Lemma backwardWalk_step : forall work c,
  backwardWalk work c
  = while walk_fuel (walk_cond work) (stepWalk backCounted backStep) (walk_init c).
Proof.
  intros work c. unfold backwardWalk. apply while_ext, backward_body_step.
Qed.

Lemma forwardWalk_step : forall work c,
  forwardWalk work c
  = while walk_fuel (walk_cond work) (stepWalk fwdCounted fwdStep) (walk_init c).
Proof.
  intros work c. unfold forwardWalk. apply while_ext, forward_body_step.
Qed.

Lemma constructionStage_views : forall cfg,
  constructionStage cfg = (constructionRange cfg, connectionStart cfg, connectionEnd cfg).
Proof.
  intros cfg.
  cbv beta zeta delta [constructionStage constructionRange connectionStart connectionEnd
    constructionStartDate needsRepair constructionStart0 newConnectionEnd
    actualConstructionEnd targetConstructionEnd connectionEnd0 connectionStart0
    backwardWalk forwardWalk walk_init].
  destruct (truthy (Skip.construction (skipped cfg))); cbn [negb andb]; [reflexivity|].
  destruct (isSubcontracted cfg);
    match goal with |- context [?a <? securityLockDate cfg] =>
      destruct (a <? securityLockDate cfg) end;
    cbn [negb andb]; try reflexivity;
    destruct (truthy (Skip.connection (skipped cfg))); cbn [negb andb]; reflexivity.
Qed.

Lemma addMonths_whole : forall t n, addMonths t (inject_Z n) = setMonth t (getMonth t + n).
Proof. intros t n. unfold addMonths. rewrite ToInteger_plus_Z. reflexivity. Qed.

Lemma ToInteger_minus_Z : forall a n, ToInteger (inject_Z a - inject_Z n) = a - n.
Proof.
  intros a n. unfold ToInteger. simpl. rewrite Z.quot_1_r. lia.
Qed.

Lemma subMonths_whole : forall t n, subMonths t (inject_Z n) = setMonth t (getMonth t - n).
Proof. intros t n. unfold subMonths. rewrite ToInteger_minus_Z. reflexivity. Qed.

Lemma addMonths_zero : forall t, addMonths t 0 = t.
Proof.
  intros t. change 0%Q with (inject_Z 0). rewrite addMonths_whole, Z.add_0_r.
  apply setMonth_same.
Qed.

(** Coming back by the same number of months from a date reached without
    rollover. *)
Lemma setMonth_back : forall t n,
  getDate t <= daysInMonth (getFullYear t + (getMonth t + n) / 12) ((getMonth t + n) mod 12) ->
  setMonth (setMonth t (getMonth t + n)) (getMonth (setMonth t (getMonth t + n)) - n) = t.
Proof.
  intros t n H.
  destruct (setMonth_fields t (getMonth t + n) H) as (Hy & Hm & Hd & Ht).
  destruct (date_valid t) as (Hmr & _ & Hday).
  set (t1 := setMonth t (getMonth t + n)) in *.
  unfold setMonth at 1. rewrite Hy, Hm, Hd, Ht.
  set (k := getMonth t + n) in *.
  assert (E : MakeDay (getFullYear t + k / 12) (k mod 12 - n) (getDate t) = Day t).
  { unfold MakeDay.
    replace (getFullYear t + k / 12 + (k mod 12 - n) / 12) with (getFullYear t)
      by (unfold k; Z.div_mod_to_equations; lia).
    replace ((k mod 12 - n) mod 12) with (getMonth t)
      by (unfold k; Z.div_mod_to_equations; lia).
    rewrite <- Hday.
    replace (getDate t) with (1 + (getDate t - 1)) at 2 by lia.
    rewrite days_from_civil_day. lia. }
  rewrite E. apply MakeDate_Day.
Qed.

Lemma backStep_le : forall c, backStep c <= c.
Proof.
  intros c. unfold backStep. change 1%Q with (inject_Z 1).
  rewrite subMonths_whole. apply setMonth_le. lia.
Qed.

Lemma trail_back_le : forall k c, trail backStep k c <= c.
Proof.
  induction k as [|k IH]; intros c.
  - simpl. lia.
  - unfold trail in *. rewrite Nat.iter_succ.
    pose proof (backStep_le (Nat.iter k backStep c)). specialize (IH c). lia.
Qed.

Lemma diffMonths_self : forall t, diffMonths t t = 0.
Proof.
  intros t. unfold diffMonths.
  replace ((getFullYear t - getFullYear t) * 12 - getMonth t + getMonth t) with 0 by lia.
  reflexivity.
Qed.

(** ** The engine *)

Lemma timeline_views : forall cfg,
  calculateProjectTimeline cfg =
  {| Result.negotiation := negotiationRange cfg;
     Result.urbanism := urbanRange cfg;
     Result.aoCre := creRange cfg;
     Result.leaseManagement := leaseRange cfg;
     Result.connection :=
       {| start := connectionStart cfg; end_ := connectionEnd cfg;
          durationMonths := connectionDuration cfg |};
     Result.construction := constructionRange cfg;
     Result.operation :=
       {| start := addMonths (connectionEnd cfg) 1;
          end_ := addMonths (addMonths (connectionEnd cfg) 1) 24;
          durationMonths := 24 |};
     Result.milestones :=
       {| loi := match negotiationRange cfg with Some _ => Some (T0 cfg) | None => None end;
          signature := T0 cfg;
          urbanismOk := match urbanRange cfg with Some _ => Some (urbanEnd cfg) | None => None end;
          laureate := option_map end_ (creRange cfg);
          leaseSigned := option_map end_ (leaseRange cfg);
          constructionCompletion := end_ (constructionRange cfg);
          cod := addMonths (connectionEnd cfg) 1 |};
     Result.totalDurationMonths :=
       diffMonths (finalNegotiationStart cfg) (addMonths (connectionEnd cfg) 1) |}.
Proof.
  intros cfg. unfold calculateProjectTimeline. rewrite constructionStage_views.
  reflexivity.
Qed.

Lemma needsRepair_true : forall cfg,
  constructionStart0 cfg < securityLockDate cfg -> needsRepair cfg = true.
Proof. intros cfg H. unfold needsRepair. apply Z.ltb_lt, H. Qed.

Lemma newConnectionEnd_shift : forall cfg,
  newConnectionEnd cfg = actualConstructionEnd cfg + 15 * msPerDay.
Proof. intros cfg. unfold newConnectionEnd. apply setDate_shift. Qed.

Lemma targetConstructionEnd_shift : forall cfg,
  targetConstructionEnd cfg = connectionEnd0 cfg - 15 * msPerDay.
Proof.
  intros cfg. unfold targetConstructionEnd.
  replace (getDate (connectionEnd0 cfg) - 15) with (getDate (connectionEnd0 cfg) + (-15)) by lia.
  rewrite setDate_shift. lia.
Qed.

Lemma backCounted_landing : forall c,
  backCounted c = negb (isRestrictedMonth (backStep c)).
Proof. intros c. unfold backCounted, backStep. reflexivity. Qed.

Lemma connectionDuration_skipped : forall cfg,
  truthy (Skip.connection (skipped cfg)) = true -> connectionDuration cfg = 0%Q.
Proof. intros cfg H. unfold connectionDuration. rewrite H. reflexivity. Qed.

Lemma constructionStart0_le_target : forall cfg,
  isSubcontracted cfg = false \/ (-1 < workMonthsNeeded cfg)%Q ->
  constructionStart0 cfg <= targetConstructionEnd cfg.
Proof.
  intros cfg H. unfold constructionStart0.
  destruct (isSubcontracted cfg) eqn:Hs.
  - destruct H as [H|H]; [discriminate|].
    unfold subMonths. apply setMonth_le, ToInteger_sub_le; [|exact H].
    apply (date_valid (targetConstructionEnd cfg)).
  - rewrite backwardWalk_step.
    destruct (walk_result backCounted backStep (workMonthsNeeded cfg)
                (targetConstructionEnd cfg)) as (k & _ & -> & _).
    cbn [cursor]. apply trail_back_le.
Qed.

Lemma daysInMonth_ge_28 : forall y m, 28 <= daysInMonth y m.
Proof.
  intros y m. unfold daysInMonth.
  destruct (m =? 1); [destruct (isLeap y); lia|].
  destruct ((m =? 3) || (m =? 5) || (m =? 8) || (m =? 10)); lia.
Qed.

(** A day of month up to the 28th exists in every month. *)
Lemma day_28_fits : forall d n, getDate d <= 28 ->
  getDate d <= daysInMonth (getFullYear d + (getMonth d + n) / 12) ((getMonth d + n) mod 12).
Proof.
  intros d n H.
  pose proof (daysInMonth_ge_28 (getFullYear d + (getMonth d + n) / 12)
                ((getMonth d + n) mod 12)).
  lia.
Qed.

(** The two parts of the lock invariant that hold on every configuration. *)
Lemma construction_after_lock : forall cfg,
  securityLockDate cfg = Z.max (creEndDate cfg) (leaseEndDate cfg) /\
  securityLockDate cfg <= start (Result.construction (calculateProjectTimeline cfg)).
Proof.
  intros cfg. split; [reflexivity|].
  rewrite timeline_views. cbn [Result.construction].
  unfold constructionRange, connectionStart, constructionStartDate, needsRepair.
  destruct (truthy (Skip.construction (skipped cfg))); cbn [negb andb start].
  - unfold connectionStart0. lia.
  - destruct (constructionStart0 cfg <? securityLockDate cfg) eqn:E; [lia|].
    apply Z.ltb_ge in E. exact E.
Qed.

(** ** The claims *)





(** C3.  On the self-consumption project signed 2025-04-20 the lock is
    2025-12-20, the constraint repair runs, and the returned connection
    range starts on 2025-12-05: fifteen days before [securityLockDate]. *)
Theorem connection_before_lock :
  securityLockDate lateSignature = ymd 2025 12 20 /\
  needsRepair lateSignature = true /\
  Result.connection (calculateProjectTimeline lateSignature)
    = {| start := ymd 2025 12 5; end_ := ymd 2026 5 5; durationMonths := 5 |} /\
  start (Result.connection (calculateProjectTimeline lateSignature))
    < securityLockDate lateSignature.
Proof. vm_compute. repeat split. Qed.

(** C4.  The worked scenario (T0 = 2025-03-01, 200 kWc, existing roof,
    total injection, own investment, self-executed, no skip, no override):
    urbanism lasts 4 months and ends 2025-07-01; tender and lease are both
    included, last 4 months and end 2025-11-01; the lock is 2025-11-01;
    connection lasts 9 months and first ends 2026-08-01; 3 work months are
    needed; the target construction end is 2026-07-17; the backward walk
    lands on June, May, April and March and counts 3 productive months in
    4 steps, April not being counted. *)
Theorem scenario_values :
  urbanDuration scenario = 4%Q /\
  urbanEnd scenario = ymd 2025 7 1 /\
  creRange scenario
    = Some {| start := ymd 2025 7 1; end_ := ymd 2025 11 1; durationMonths := 4 |} /\
  leaseRange scenario
    = Some {| start := ymd 2025 7 1; end_ := ymd 2025 11 1; durationMonths := 4 |} /\
  securityLockDate scenario = ymd 2025 11 1 /\
  connectionDuration scenario = 9%Q /\
  connectionEnd0 scenario = ymd 2026 8 1 /\
  workMonthsNeeded scenario = 3%Q /\
  targetConstructionEnd scenario = ymd 2026 7 17 /\
  map (fun k => getMonth (trail backStep k (targetConstructionEnd scenario)))
      [1; 2; 3; 4]%nat = [5; 4; 3; 2] /\
  backwardWalk 3 (targetConstructionEnd scenario)
    = {| validMonths := 3; cursor := ymd 2026 3 17; protection := 4 |} /\
  Result.construction (calculateProjectTimeline scenario)
    = {| start := ymd 2026 3 17; end_ := ymd 2026 7 17; durationMonths := 5 |}.
Proof. vm_compute. repeat split. Qed.

(** C5, counterexample.  With construction skipped, the
    construction-completion milestone still carries a date. *)
Lemma completion_present_when_skipped :
  truthy (Skip.construction (skipped skippedWorks)) = true /\
  constructionCompletion (Result.milestones (calculateProjectTimeline skippedWorks))
    = ymd 2025 11 1 /\
  ~ milestones_iff_not_skipped skippedWorks.
Proof.
  split; [reflexivity|]. split; [vm_compute; reflexivity|].
  intros H. specialize (H GConstructionCompletion). discriminate H.
Qed.

(** C5, as amended.  The signature milestone is T0.  [loi] and the
    negotiation range are present exactly when negotiation is not skipped,
    [urbanismOk] and the urbanism range exactly when urbanism is not
    skipped; [laureate] is present exactly when the tender range is, that
    is when the tender is not skipped, power exceeds 100 kWc and injection
    is total; [leaseSigned] is present exactly when the lease range is,
    that is when lease management is not skipped and the investment model
    is [OWN_INVESTMENT]; [constructionCompletion] is always the end of the
    construction range, which exists even when construction is skipped (it
    is then the zero-length range at the lock). *)
Theorem milestones_presence : forall cfg,
  let r := calculateProjectTimeline cfg in
  let m := Result.milestones r in
  let s := skipped cfg in
  signature m = T0 cfg /\
  (isSome (loi m) = negb (truthy (Skip.negotiation s)) /\
   isSome (Result.negotiation r) = negb (truthy (Skip.negotiation s))) /\
  (isSome (urbanismOk m) = negb (truthy (Skip.urbanism s)) /\
   isSome (Result.urbanism r) = negb (truthy (Skip.urbanism s))) /\
  (isSome (laureate m) = isSome (Result.aoCre r) /\
   isSome (Result.aoCre r)
     = negb (truthy (Skip.aoCre s)) && Qltb 100 (powerKWc cfg)
       && InjectionType_eqb (injectionType cfg) TOTAL_INJECTION) /\
  (isSome (leaseSigned m) = isSome (Result.leaseManagement r) /\
   isSome (Result.leaseManagement r)
     = negb (truthy (Skip.leaseManagement s))
       && InvestmentModel_eqb (investmentModel cfg) OWN_INVESTMENT) /\
  constructionCompletion m = end_ (Result.construction r) /\
  (truthy (Skip.construction s) = true ->
   Result.construction r
     = {| start := securityLockDate cfg; end_ := securityLockDate cfg;
          durationMonths := 0 |}).
Proof.
  intros cfg r m s. subst r m s. rewrite timeline_views.
  cbn [Result.milestones Result.negotiation Result.urbanism Result.aoCre
       Result.leaseManagement Result.construction signature loi urbanismOk
       laureate leaseSigned constructionCompletion].
  split; [reflexivity|]. split; [|split; [|split; [|split; [|split]]]].
  - unfold negotiationRange. destruct (truthy (Skip.negotiation (skipped cfg))); split; reflexivity.
  - unfold urbanRange. destruct (truthy (Skip.urbanism (skipped cfg))); split; reflexivity.
  - unfold creRange, P.
    destruct (negb (truthy (Skip.aoCre (skipped cfg))) && Qltb 100 (powerKWc cfg)
              && InjectionType_eqb (injectionType cfg) TOTAL_INJECTION);
      split; reflexivity.
  - unfold leaseRange.
    destruct (negb (truthy (Skip.leaseManagement (skipped cfg)))
              && InvestmentModel_eqb (investmentModel cfg) OWN_INVESTMENT);
      split; reflexivity.
  - reflexivity.
  - intros Hs. unfold constructionRange, connectionStart. rewrite Hs.
    cbn [negb andb]. reflexivity.
Qed.

Lemma milestones_presence_witness :
  Result.construction (calculateProjectTimeline skippedWorks)
  = {| start := securityLockDate skippedWorks; end_ := securityLockDate skippedWorks;
       durationMonths := 0 |}.
Proof.
  destruct (milestones_presence skippedWorks) as (_ & _ & _ & _ & _ & _ & H).
  apply H. reflexivity.
Defined.

(** C6.  The connection duration the engine uses (the one of the returned
    connection range and of the initial placement) is 0 when connection is
    skipped; otherwise the override when there is one; otherwise 5 under
    self-consumption; otherwise 6 for a power up to 36 kWc, 9 up to 250, 12
    up to 1000 and 18 above. *)
Theorem connection_duration_rule : forall cfg,
  let dur := connectionDuration cfg in
  let p := powerKWc cfg in
  durationMonths (Result.connection (calculateProjectTimeline cfg)) = dur /\
  connectionEnd0 cfg = addMonths (securityLockDate cfg) dur /\
  (truthy (Skip.connection (skipped cfg)) = true -> dur = 0%Q) /\
  (truthy (Skip.connection (skipped cfg)) = false ->
     (forall d, Override.connectionDuration (overrides cfg) = Some d -> dur = d) /\
     (Override.connectionDuration (overrides cfg) = None ->
        (injectionType cfg = AUTOCONSUMPTION -> dur = 5%Q) /\
        (injectionType cfg = TOTAL_INJECTION ->
           (p <= 36 -> dur = 6%Q) /\
           (36 < p -> p <= 250 -> dur = 9%Q) /\
           (250 < p -> p <= 1000 -> dur = 12%Q) /\
           (1000 < p -> dur = 18%Q))))%Q.
Proof.
  intros cfg dur p. subst dur p. rewrite timeline_views.
  cbn [Result.connection durationMonths].
  split; [reflexivity|]. split; [reflexivity|].
  unfold connectionDuration, P.
  split.
  - intros ->. reflexivity.
  - intros ->. split.
    + intros d ->. reflexivity.
    + intros ->. split.
      * intros ->. reflexivity.
      * intros ->. cbn [InjectionType_eqb].
        assert (Hle : forall b, (powerKWc cfg <= b)%Q -> Qle_bool (powerKWc cfg) b = true)
          by (intros b; apply Qle_bool_iff).
        assert (Hgt : forall b, (b < powerKWc cfg)%Q -> Qle_bool (powerKWc cfg) b = false).
        { intros b Hb. destruct (Qle_bool (powerKWc cfg) b) eqn:E; [|reflexivity].
          apply Qle_bool_iff in E. exfalso. exact (Qlt_not_le _ _ Hb E). }
        split; [|split; [|split]].
        -- intros H1. rewrite (Hle _ H1). reflexivity.
        -- intros H1 H2. rewrite (Hgt _ H1), (Hle _ H2). reflexivity.
        -- intros H1 H2.
           rewrite (Hgt 36%Q), (Hgt _ H1), (Hle _ H2); [reflexivity|].
           apply Qlt_trans with (2 := H1). reflexivity.
        -- intros H1.
           rewrite (Hgt 36%Q), (Hgt 250%Q), (Hgt _ H1); [reflexivity| |];
             apply Qlt_trans with (2 := H1); reflexivity.
Qed.

Lemma connection_duration_rule_witness :
  connectionDuration (withPower 36 scenario) = 6%Q /\
  connectionDuration (withPower (360001 # 10000) scenario) = 9%Q /\
  connectionDuration (withSkipped skipConnection scenario) = 0%Q.
Proof.
  destruct (connection_duration_rule (withPower 36 scenario)) as (_ & _ & _ & H1).
  destruct (H1 eq_refl) as (_ & H1'). destruct (H1' eq_refl) as (_ & H1'').
  destruct (H1'' eq_refl) as (A & _).
  destruct (connection_duration_rule (withPower (360001 # 10000) scenario))
    as (_ & _ & _ & H2).
  destruct (H2 eq_refl) as (_ & H2'). destruct (H2' eq_refl) as (_ & H2'').
  destruct (H2'' eq_refl) as (_ & B & _).
  destruct (connection_duration_rule (withSkipped skipConnection scenario))
    as (_ & _ & C & _).
  split; [|split].
  - apply A. vm_compute. discriminate.
  - apply B; vm_compute; [reflexivity | discriminate].
  - apply C. reflexivity.
Defined.




(** C9.  The engine returns a result on every configuration.  Both
    seasonality loops leave by their own condition after at most 36
    iterations, so that a larger iteration budget changes nothing.  When
    the bound cuts a walk short (40 work months asked, 27 found in 36
    steps) the result is the very one obtained when 27 months are asked
    and found: nothing in it tells the truncation. *)
Theorem engine_total : forall cfg,
  let work := workMonthsNeeded cfg in
  let b := backwardWalk work (targetConstructionEnd cfg) in
  let f := forwardWalk work (securityLockDate cfg) in
  (exists r, calculateProjectTimeline cfg = r) /\
  (walk_cond work b = false /\ 0 <= protection b <= 36) /\
  (walk_cond work f = false /\ 0 <= protection f <= 36) /\
  (forall extra,
     while (walk_fuel + extra) (walk_cond work) backward_body
       (walk_init (targetConstructionEnd cfg)) = b /\
     while (walk_fuel + extra) (walk_cond work) forward_body
       (walk_init (securityLockDate cfg)) = f) /\
  (let cut := forwardWalk (workMonthsNeeded fortyMonths) (securityLockDate fortyMonths) in
   protection cut = 36 /\
   (inject_Z (validMonths cut) < workMonthsNeeded fortyMonths)%Q /\
   (inject_Z (validMonths (forwardWalk (workMonthsNeeded twentySevenMonths)
                             (securityLockDate twentySevenMonths)))
    == workMonthsNeeded twentySevenMonths)%Q /\
   calculateProjectTimeline fortyMonths = calculateProjectTimeline twentySevenMonths).
Proof.
  intros cfg work b f. subst work b f.
  split; [eexists; reflexivity|].
  pose proof (walk_exits backCounted backStep (workMonthsNeeded cfg)
                (targetConstructionEnd cfg)) as Hb.
  pose proof (walk_exits fwdCounted fwdStep (workMonthsNeeded cfg)
                (securityLockDate cfg)) as Hf.
  cbv zeta in Hb, Hf. rewrite <- backwardWalk_step in Hb. rewrite <- forwardWalk_step in Hf.
  split; [exact Hb|]. split; [exact Hf|]. split.
  - intros extra. split; apply while_more_fuel; [apply Hb | apply Hf].
  - cbv zeta. split; [vm_compute; reflexivity|]. split; [vm_compute; reflexivity|].
    split; vm_compute; reflexivity.
Qed.

(** C10, counterexample.  Subcontracted project, connection skipped,
    construction override of -1 month: the backward placement lands one
    month after the target, on 2025-11-17, past the lock of 2025-11-01; the
    repair does not run and construction does not start at the lock. *)
Lemma negative_work_no_repair :
  truthy (Skip.connection (skipped negativeWork)) = true /\
  truthy (Skip.construction (skipped negativeWork)) = false /\
  needsRepair negativeWork = false /\
  securityLockDate negativeWork = ymd 2025 11 1 /\
  start (Result.construction (calculateProjectTimeline negativeWork)) = ymd 2025 11 17 /\
  start (Result.construction (calculateProjectTimeline negativeWork))
    <> securityLockDate negativeWork.
Proof. vm_compute. repeat split; discriminate. Qed.

(** * Further properties of the engine, the chart and the project list *)

(** ** More calendar facts *)

Lemma leapDays_year : forall y,
  leapDays y - leapDays (y - 1) = if isLeap y then 1 else 0.
Proof.
  intros y. unfold leapDays, isLeap.
  destruct (y mod 4 =? 0) eqn:E4; destruct (y mod 100 =? 0) eqn:E100;
  destruct (y mod 400 =? 0) eqn:E400; cbn [negb andb orb];
  Z.div_mod_to_equations; lia.
Qed.

(** The first of the next month is [daysInMonth] days after the first of
    a month. *)
Lemma month_length : forall y m, 0 <= m < 12 ->
  days_from_civil (y + (m + 1) / 12) ((m + 1) mod 12) 1
  = days_from_civil y m 1 + daysInMonth y m.
Proof.
  intros y m Hm.
  replace (days_from_civil y m 1) with (days_from_civil (y + m / 12) (m mod 12) 1).
  2:{ replace (m / 12) with 0 by (Z.div_mod_to_equations; lia).
      replace (m mod 12) with m by (Z.div_mod_to_equations; lia).
      rewrite Z.add_0_r. reflexivity. }
  rewrite !firstOfMonth_index.
  replace (12 * y + (m + 1) - 2) with ((12 * y + m - 2) + 1) by lia.
  destruct (daysInMonth_shift y m Hm) as (Hlen & Hfeb).
  assert (Hr : (12 * y + m - 2) mod 12 = shiftMonth m).
  { unfold shiftMonth. destruct (m <? 2) eqn:E; Z.div_mod_to_equations; lia. }
  set (M := 12 * y + m - 2) in *.
  destruct (Z.eq_dec (shiftMonth m) 11) as [F|F].
  - assert (Hq : M / 12 = y - 1).
    { unfold shiftMonth in F. destruct (m <? 2) eqn:E; [|lia].
      unfold M. Z.div_mod_to_equations. lia. }
    assert (E1 : (M + 1) / 12 = y) by (Z.div_mod_to_equations; lia).
    assert (E2 : (M + 1) mod 12 = 0) by (Z.div_mod_to_equations; lia).
    rewrite E1, E2, Hr, Hq, F, (Hfeb F).
    change (monthStart 11) with 337. change (monthStart 0) with 0.
    pose proof (leapDays_year y). destruct (isLeap y); lia.
  - assert (Hs : 0 <= shiftMonth m < 11).
    { unfold shiftMonth in *. destruct (m <? 2) eqn:E; lia. }
    assert (E1 : (M + 1) / 12 = M / 12) by (Z.div_mod_to_equations; lia).
    assert (E2 : (M + 1) mod 12 = shiftMonth m + 1) by (Z.div_mod_to_equations; lia).
    rewrite E1, E2, Hr, (Hlen ltac:(lia)). lia.
Qed.

Lemma addMonths_one : forall t,
  addMonths t 1 = t + daysInMonth (getFullYear t) (getMonth t) * msPerDay.
Proof.
  intros t. change 1%Q with (inject_Z 1). rewrite addMonths_whole.
  destruct (date_valid t) as (Hm & _ & Hd).
  unfold setMonth, MakeDay. rewrite month_length by exact Hm.
  pose proof (days_from_civil_day (getFullYear t) (getMonth t) 1 (getDate t - 1)) as Hl.
  replace (1 + (getDate t - 1)) with (getDate t) in Hl by lia.
  pose proof (MakeDate_Day t) as Ht. unfold MakeDate in *. lia.
Qed.

Lemma ToInteger_add_ge : forall a w, 0 <= a -> (0 <= w)%Q ->
  a <= ToInteger (inject_Z a + w).
Proof.
  intros a [wn wd] Ha Hw. unfold Qle in Hw. simpl in Hw.
  unfold ToInteger. simpl.
  rewrite Z.quot_div_nonneg by nia.
  apply Z.div_le_lower_bound; nia.
Qed.

Lemma addMonths_ge : forall t w, (0 <= w)%Q -> t <= addMonths t w.
Proof.
  intros t w H. unfold addMonths. apply setMonth_ge, ToInteger_add_ge; [|exact H].
  apply (date_valid t).
Qed.

Lemma subMonths_le : forall t w, (-1 < w)%Q -> subMonths t w <= t.
Proof.
  intros t w H. unfold subMonths. apply setMonth_le, ToInteger_sub_le; [|exact H].
  apply (date_valid t).
Qed.

Lemma fwdStep_ge : forall c, c <= fwdStep c.
Proof. intros c. unfold fwdStep. apply addMonths_ge. discriminate. Qed.

Lemma trail_fwd_ge : forall k c, c <= trail fwdStep k c.
Proof.
  induction k as [|k IH]; intros c.
  - simpl. lia.
  - unfold trail in *. rewrite Nat.iter_succ.
    pose proof (fwdStep_ge (Nat.iter k fwdStep c)). specialize (IH c). lia.
Qed.

(** ** The engine, further *)

Lemma daysInMonth_le_31 : forall y m, daysInMonth y m <= 31.
Proof.
  intros y m. unfold daysInMonth.
  destruct (m =? 1); [destruct (isLeap y); lia|].
  destruct ((m =? 3) || (m =? 5) || (m =? 8) || (m =? 10)); lia.
Qed.

Lemma getMonth_ymd : forall y m d tm,
  1 <= m <= 12 -> 1 <= d <= daysInMonth y (m - 1) -> 0 <= tm < msPerDay ->
  getFullYear (ymd y m d + tm) = y /\ getMonth (ymd y m d + tm) = m - 1
  /\ getDate (ymd y m d + tm) = d.
Proof.
  intros y m d tm Hm Hd Ht.
  destruct (Day_MakeDate (days_from_civil y (m - 1) d) tm Ht) as (HD & _).
  unfold MakeDate in HD. unfold getFullYear, getMonth, getDate, ymd.
  rewrite HD, civil_of_days by lia. repeat split.
Qed.

(** X1.  For every calendar date (year, month 1..12, a day that exists in
    that month) and every time of the day, [isRestrictedMonth] answers
    [true] exactly for January, April and August, whatever the year and
    the day. *)
Theorem isRestrictedMonth_civil : forall y m d tm,
  1 <= m <= 12 -> 1 <= d <= daysInMonth y (m - 1) -> 0 <= tm < msPerDay ->
  isRestrictedMonth (ymd y m d + tm) = (m =? 1) || (m =? 4) || (m =? 8).
Proof.
  intros y m d tm Hm Hd Ht.
  destruct (getMonth_ymd y m d tm Hm Hd Ht) as (_ & HM & _).
  unfold isRestrictedMonth. rewrite HM.
  destruct (m =? 1) eqn:E1; destruct (m =? 4) eqn:E4; destruct (m =? 8) eqn:E8;
  destruct (m - 1 =? 0) eqn:F1; destruct (m - 1 =? 3) eqn:F4;
  destruct (m - 1 =? 7) eqn:F8; try reflexivity; lia.
Qed.

Lemma isRestrictedMonth_civil_witness :
  isRestrictedMonth (ymd 2031 8 31 + 3600000) = true /\
  isRestrictedMonth (ymd 1999 12 1 + 0) = false.
Proof.
  split.
  - apply (isRestrictedMonth_civil 2031 8 31 3600000);
      [lia | vm_compute; split; intros H; discriminate H | unfold msPerDay; lia].
  - apply (isRestrictedMonth_civil 1999 12 1 0);
      [lia | vm_compute; split; intros H; discriminate H | unfold msPerDay; lia].
Defined.

Lemma Math_round_nonneg : forall q, (0 <= q)%Q -> 0 <= Math_round q.
Proof.
  intros q H. unfold Math_round.
  change 0 with (Qfloor 0). apply Qfloor_resp_le.
  apply Qle_trans with (y := q); [exact H|].
  rewrite <- (Qplus_0_r q) at 1. apply Qplus_le_r. discriminate.
Qed.




Lemma orDefault_nonneg : forall o d, notNegative o -> (0 <= d)%Q -> (0 <= orDefault o d)%Q.
Proof. intros [q|] d H Hd; simpl in *; assumption. Qed.

Lemma urbanDuration_nonneg : forall cfg,
  notNegative (Override.urbanismDuration (overrides cfg)) -> (0 <= urbanDuration cfg)%Q.
Proof.
  intros cfg H. unfold urbanDuration. apply orDefault_nonneg; [exact H|].
  destruct (Qltb 3000 (P cfg) || ProjectTypology_eqb (typology cfg) ROOF_NEW); discriminate.
Qed.

Lemma connectionDuration_nonneg : forall cfg,
  notNegative (Override.connectionDuration (overrides cfg)) ->
  (0 <= connectionDuration cfg)%Q.
Proof.
  intros cfg H. unfold connectionDuration.
  destruct (truthy (Skip.connection (skipped cfg))); [discriminate|].
  destruct (Override.connectionDuration (overrides cfg)) as [q|]; [exact H|].
  destruct (InjectionType_eqb (injectionType cfg) AUTOCONSUMPTION); [discriminate|].
  destruct (Qle_bool (P cfg) 36); [discriminate|].
  destruct (Qle_bool (P cfg) 250); [discriminate|].
  destruct (Qle_bool (P cfg) 1000); discriminate.
Qed.

Lemma urbanEnd_ge : forall cfg,
  notNegative (Override.urbanismDuration (overrides cfg)) -> T0 cfg <= urbanEnd cfg.
Proof.
  intros cfg H. unfold urbanEnd.
  destruct (negb (truthy (Skip.urbanism (skipped cfg)))); [|lia].
  apply addMonths_ge, urbanDuration_nonneg, H.
Qed.

Lemma creEndDate_ge : forall cfg,
  notNegative (Override.creDuration (overrides cfg)) -> urbanEnd cfg <= creEndDate cfg.
Proof.
  intros cfg H. unfold creEndDate, creRange.
  destruct (negb (truthy (Skip.aoCre (skipped cfg))) && Qltb 100 (P cfg)
            && InjectionType_eqb (injectionType cfg) TOTAL_INJECTION); [|lia].
  cbn [end_]. apply addMonths_ge, orDefault_nonneg; [exact H|discriminate].
Qed.

Lemma leaseEndDate_ge : forall cfg,
  notNegative (Override.leaseDuration (overrides cfg)) -> urbanEnd cfg <= leaseEndDate cfg.
Proof.
  intros cfg H. unfold leaseEndDate, leaseRange.
  destruct (negb (truthy (Skip.leaseManagement (skipped cfg)))
            && InvestmentModel_eqb (investmentModel cfg) OWN_INVESTMENT); [|lia].
  cbn [end_]. apply addMonths_ge, orDefault_nonneg; [exact H|discriminate].
Qed.

Lemma urbanRange_some : forall cfg u, urbanRange cfg = Some u ->
  start u = T0 cfg /\ end_ u = urbanEnd cfg.
Proof.
  intros cfg u E. unfold urbanRange in E.
  destruct (negb (truthy (Skip.urbanism (skipped cfg)))); [|discriminate E].
  injection E as E. rewrite <- E. split; reflexivity.
Qed.

Lemma creRange_some : forall cfg c, creRange cfg = Some c ->
  start c = urbanEnd cfg /\ end_ c = creEndDate cfg.
Proof.
  intros cfg c E. unfold creEndDate. rewrite E. split; [|reflexivity].
  unfold creRange in E.
  destruct (negb (truthy (Skip.aoCre (skipped cfg))) && Qltb 100 (P cfg)
            && InjectionType_eqb (injectionType cfg) TOTAL_INJECTION); [|discriminate E].
  injection E as E. rewrite <- E. reflexivity.
Qed.

Lemma leaseRange_some : forall cfg l, leaseRange cfg = Some l ->
  start l = urbanEnd cfg /\ end_ l = leaseEndDate cfg.
Proof.
  intros cfg l E. unfold leaseEndDate. rewrite E. split; [|reflexivity].
  unfold leaseRange in E.
  destruct (negb (truthy (Skip.leaseManagement (skipped cfg)))
            && InvestmentModel_eqb (investmentModel cfg) OWN_INVESTMENT); [|discriminate E].
  injection E as E. rewrite <- E. reflexivity.
Qed.

Lemma securityLockDate_max : forall cfg,
  securityLockDate cfg = Z.max (creEndDate cfg) (leaseEndDate cfg).
Proof. intros cfg. unfold securityLockDate, getTime. reflexivity. Qed.





(** X9.  When construction is not skipped and the backward-placed start
    does not precede the lock, the connection window stays where it was
    first placed, construction runs from the backward-placed start to the
    target construction end, which is also the completion milestone. *)
Theorem placement_without_repair : forall cfg,
  truthy (Skip.construction (skipped cfg)) = false ->
  securityLockDate cfg <= constructionStart0 cfg ->
  let r := calculateProjectTimeline cfg in
  Result.connection r
    = {| start := securityLockDate cfg;
         end_ := addMonths (securityLockDate cfg) (connectionDuration cfg);
         durationMonths := connectionDuration cfg |} /\
  start (Result.construction r) = constructionStart0 cfg /\
  end_ (Result.construction r) = targetConstructionEnd cfg /\
  constructionCompletion (Result.milestones r) = targetConstructionEnd cfg /\
  durationMonths (Result.construction r)
    = inject_Z (diffMonths (constructionStart0 cfg) (end_ (Result.connection r))).
Proof.
  intros cfg Hc Hge r. subst r.
  assert (Hr : needsRepair cfg = false) by (unfold needsRepair; apply Z.ltb_ge, Hge).
  assert (He : connectionEnd cfg = connectionEnd0 cfg).
  { unfold connectionEnd. rewrite Hc, Hr. reflexivity. }
  assert (Hs : connectionStart cfg = securityLockDate cfg).
  { unfold connectionStart. rewrite Hc, Hr. reflexivity. }
  assert (Hrange : constructionRange cfg =
    {| start := constructionStart0 cfg; end_ := targetConstructionEnd cfg;
       durationMonths := inject_Z (diffMonths (constructionStart0 cfg) (connectionEnd0 cfg)) |}).
  { unfold constructionRange. rewrite Hc. unfold constructionStartDate. rewrite Hr, He.
    rewrite targetConstructionEnd_shift. unfold getTime, msPerDay. reflexivity. }
  rewrite timeline_views.
  cbn [Result.connection Result.construction Result.milestones constructionCompletion].
  rewrite Hrange, He, Hs. cbn [start end_ durationMonths].
  repeat split.
Qed.

Lemma placement_without_repair_witness :
  Result.connection (calculateProjectTimeline scenario)
  = {| start := ymd 2025 11 1; end_ := ymd 2026 8 1; durationMonths := 9 |}.
Proof.
  assert (H : securityLockDate scenario <= constructionStart0 scenario)
    by (vm_compute; intros E; discriminate E).
  destruct (placement_without_repair scenario eq_refl H) as (Hc & _).
  rewrite Hc. vm_compute. reflexivity.
Defined.

Section WalkCounts.
Variables (counted : Date -> bool) (next : Date -> Date).

Lemma productive_bounds : forall k c,
  0 <= productive counted next k c <= Z.of_nat k.
Proof.
  induction k as [|k IH]; intros c.
  - simpl. lia.
  - cbn [productive]. specialize (IH c).
    destruct (counted (trail next k c)); lia.
Qed.

Lemma productive_step : forall k c,
  productive counted next (S k) c <= productive counted next k c + 1.
Proof. intros k c. cbn [productive]. destruct (counted (trail next k c)); lia. Qed.

Lemma walk_counts_gen : forall work c,
  let w := while walk_fuel (walk_cond work) (stepWalk counted next) (walk_init c) in
  0 <= validMonths w <= protection w /\ protection w <= 36 /\
  (protection w < 36 -> (work <= inject_Z (validMonths w))%Q) /\
  (0 < protection w -> (inject_Z (validMonths w) < work + 1)%Q) /\
  ((work <= 0)%Q -> w = walk_init c).
Proof.
  intros work c w. subst w.
  destruct (walk_result counted next work c) as (k & Hk & -> & Hbefore & Hstop).
  cbn [validMonths protection].
  pose proof (productive_bounds k c) as Hb.
  split; [exact Hb|]. split; [lia|]. split; [|split].
  - intros Hlt. destruct Hstop as [->|H]; [simpl in Hlt; lia|exact H].
  - intros Hpos. destruct k as [|k]; [simpl in Hpos; lia|].
    specialize (Hbefore k ltac:(lia)).
    pose proof (productive_step k c) as Hs.
    apply Qle_lt_trans with (y := (inject_Z (productive counted next k c) + 1)%Q).
    + change 1%Q with (inject_Z 1). rewrite <- inject_Z_plus.
      rewrite <- Zle_Qle. exact Hs.
    + apply Qplus_lt_l. exact Hbefore.
  - intros Hw. destruct k as [|k]; [reflexivity|].
    specialize (Hbefore O ltac:(lia)). cbn [productive] in Hbefore.
    exfalso. apply (Qlt_not_le _ _ Hbefore). exact Hw.
Qed.
End WalkCounts.



(** Truncation towards zero is monotone. *)
Lemma ToInteger_mono : forall p q, (p <= q)%Q -> ToInteger p <= ToInteger q.
Proof.
  intros [pn pd] [qn qd] H. unfold Qle in H. simpl in H. unfold ToInteger. simpl.
  rewrite <- (Z.quot_mul_cancel_r pn (Z.pos pd) (Z.pos qd)) by lia.
  rewrite <- (Z.quot_mul_cancel_r qn (Z.pos qd) (Z.pos pd)) by lia.
  rewrite (Z.mul_comm (Z.pos qd) (Z.pos pd)).
  apply Z.quot_le_mono; lia.
Qed.

Lemma addMonths_mono : forall t p q, (p <= q)%Q -> addMonths t p <= addMonths t q.
Proof.
  intros t p q H. unfold addMonths, setMonth.
  apply MakeDate_mono, MakeDay_month_mono, ToInteger_mono.
  apply Qplus_le_r. exact H.
Qed.

Lemma addMonths_longer : forall t a b,
  Z.max (addMonths t a) (addMonths t b) = addMonths t (longer a b).
Proof.
  intros t a b. unfold longer. destruct (Qle_bool a b) eqn:E.
  - apply Qle_bool_iff in E. pose proof (addMonths_mono t a b E). lia.
  - assert (H : (b <= a)%Q).
    { apply Qlt_le_weak, Qnot_le_lt. intros F. apply Qle_bool_iff in F. congruence. }
    pose proof (addMonths_mono t b a H). lia.
Qed.


(** ** The chart grid *)

Lemma setDate_first : forall t,
  getFullYear (setDate t 1) = getFullYear t /\
  getMonth (setDate t 1) = getMonth t /\
  getDate (setDate t 1) = 1 /\
  TimeWithinDay (setDate t 1) = TimeWithinDay t /\
  setDate t 1 <= t.
Proof.
  intros t. destruct (date_valid t) as (Hm & Hd & _).
  assert (Hle : setDate t 1 <= t).
  { replace 1 with (getDate t + (1 - getDate t)) at 1 by lia.
    rewrite setDate_shift. unfold msPerDay. nia. }
  destruct (Day_MakeDate (MakeDay (getFullYear t) (getMonth t) 1) (TimeWithinDay t)
              (TimeWithinDay_range t)) as (HD & HT).
  assert (HC : civil_from_days (Day (setDate t 1)) = (getFullYear t, getMonth t, 1)).
  { unfold setDate. rewrite HD, MakeDay_in_range by exact Hm.
    apply civil_of_days; [exact Hm|].
    pose proof (daysInMonth_ge_28 (getFullYear t) (getMonth t)). lia. }
  unfold getFullYear, getMonth, getDate in *. rewrite HC. simpl.
  repeat split; try reflexivity; [exact HT | exact Hle].
Qed.

(** Months set from a first of the month never roll over. *)
Lemma setMonth_from_first : forall t k, getDate t = 1 ->
  getFullYear (setMonth t k) = getFullYear t + k / 12 /\
  getMonth (setMonth t k) = k mod 12 /\
  getDate (setMonth t k) = 1 /\
  TimeWithinDay (setMonth t k) = TimeWithinDay t.
Proof.
  intros t k H1.
  assert (Hfit : getDate t <= daysInMonth (getFullYear t + k / 12) (k mod 12)).
  { pose proof (daysInMonth_ge_28 (getFullYear t + k / 12) (k mod 12)). lia. }
  destruct (setMonth_fields t k Hfit) as (A & B & C & D).
  rewrite C. auto.
Qed.

(** Going one month further from a first of the month is [addMonths _ 1]. *)
Lemma setMonth_next : forall t k, getDate t = 1 ->
  setMonth t (k + 1) = addMonths (setMonth t k) 1.
Proof.
  intros t k H1. destruct (setMonth_from_first t k H1) as (A & B & C & D).
  change 1%Q with (inject_Z 1). rewrite addMonths_whole.
  set (s := setMonth t k) in *. unfold setMonth. rewrite A, B, C, D, H1. f_equal.
  unfold MakeDay.
  replace (getFullYear t + k / 12 + (k mod 12 + 1) / 12) with (getFullYear t + (k + 1) / 12)
    by (Z.div_mod_to_equations; lia).
  replace ((k mod 12 + 1) mod 12) with ((k + 1) mod 12) by (Z.div_mod_to_equations; lia).
  reflexivity.
Qed.

Section GridFacts.
Variable toLocaleLabel : Date -> string.

Lemma timelineLoop_map : forall turns start i months,
  Gantt.timelineLoop toLocaleLabel turns start i months
  = months ++ map (fun k => Gantt.cell toLocaleLabel start (i + Z.of_nat k)) (seq 0 turns).
Proof.
  induction turns as [|n IH]; intros start i months.
  - simpl. rewrite app_nil_r. reflexivity.
  - cbn [Gantt.timelineLoop]. rewrite IH, <- app_assoc. f_equal.
    cbn [seq map app]. rewrite Z.add_0_r. f_equal.
    rewrite <- seq_shift, map_map. apply map_ext. intros k. f_equal. lia.
Qed.

Lemma timeline_nth : forall eff i, (i < 60)%nat ->
  nth_error (Gantt.timeline toLocaleLabel eff) i
  = Some (Gantt.cell toLocaleLabel (setDate eff 1) (Z.of_nat i)).
Proof.
  intros eff i Hi. unfold Gantt.timeline. cbv zeta.
  rewrite timelineLoop_map. cbn [app].
  rewrite nth_error_map, nth_error_seq.
  unfold Gantt.TOTAL_MONTHS_VIEW.
  destruct (Nat.ltb_spec i 60) as [_|F]; [|lia]. reflexivity.
Qed.

(** X11.  The chart grid has 60 cells.  Cell [i] is dated the first day,
    at the time of day of the chart start, of the [i]-th month after the
    month of the chart start; its [year] and [monthIndex] are those of its
    date, its [isRestricted] flag marks January, April and August, its
    label is the host's rendering of its date; cell 0 is not after the
    chart start and each cell is one month after the previous one. *)
Theorem grid_is_sixty_months : forall eff,
  List.length (Gantt.timeline toLocaleLabel eff) = 60%nat /\
  forall i, (i < 60)%nat ->
    exists c, nth_error (Gantt.timeline toLocaleLabel eff) i = Some c /\
      getDate (Gantt.date c) = 1 /\
      TimeWithinDay (Gantt.date c) = TimeWithinDay eff /\
      Gantt.year c = getFullYear eff + (getMonth eff + Z.of_nat i) / 12 /\
      Gantt.monthIndex c = (getMonth eff + Z.of_nat i) mod 12 /\
      Gantt.year c = getFullYear (Gantt.date c) /\
      Gantt.monthIndex c = getMonth (Gantt.date c) /\
      Gantt.isRestricted c
        = (Gantt.monthIndex c =? 0) || (Gantt.monthIndex c =? 3) || (Gantt.monthIndex c =? 7) /\
      Gantt.label c = toLocaleLabel (Gantt.date c) /\
      (i = O -> Gantt.date c = setDate eff 1 /\ Gantt.date c <= eff) /\
      (forall c', nth_error (Gantt.timeline toLocaleLabel eff) (S i) = Some c' ->
         Gantt.date c' = addMonths (Gantt.date c) 1).
Proof.
  intros eff. split.
  - unfold Gantt.timeline. cbv zeta. rewrite timelineLoop_map. cbn [app].
    rewrite length_map, length_seq. reflexivity.
  - intros i Hi. eexists. split; [apply timeline_nth, Hi|].
    destruct (setDate_first eff) as (Sy & Sm & Sd & St & Sle).
    destruct (setMonth_from_first (setDate eff 1) (getMonth (setDate eff 1) + Z.of_nat i) Sd)
      as (A & B & C & D).
    unfold Gantt.cell. cbv zeta.
    cbn [Gantt.date Gantt.year Gantt.monthIndex Gantt.isRestricted Gantt.label].
    set (d := setMonth (setDate eff 1) (getMonth (setDate eff 1) + Z.of_nat i)) in *.
    split; [exact C|]. split; [rewrite D; exact St|].
    split; [rewrite A, Sy, Sm; reflexivity|].
    split; [rewrite B, Sm; reflexivity|].
    split; [reflexivity|]. split; [reflexivity|].
    split; [reflexivity|]. split; [reflexivity|]. split.
    + intros ->. unfold d. rewrite Z.add_0_r, setMonth_same. split; [reflexivity|exact Sle].
    + intros c' E. destruct (Nat.lt_ge_cases (S i) 60) as [Hlt|Hge].
      * rewrite timeline_nth in E by exact Hlt. rewrite Nat2Z.inj_succ in E.
        injection E as E. rewrite <- E. unfold Gantt.cell. cbv zeta. cbn [Gantt.date].
        unfold d.
        replace (getMonth (setDate eff 1) + Z.succ (Z.of_nat i))
          with (getMonth (setDate eff 1) + Z.of_nat i + 1) by lia.
        apply setMonth_next, Sd.
      * assert (N : nth_error (Gantt.timeline toLocaleLabel eff) (S i) = None).
        { apply nth_error_None. unfold Gantt.timeline. cbv zeta.
          rewrite timelineLoop_map. cbn [app].
          rewrite length_map, length_seq. unfold Gantt.TOTAL_MONTHS_VIEW. lia. }
        rewrite N in E. discriminate E.
Qed.
End GridFacts.

(** Pixels of a number of milliseconds: the arithmetic common to
    [getPosition] and [getWidth]. *)
Lemma pixels_sign : forall a b,
  let px := fun x => (inject_Z x / inject_Z (1000 * 3600 * 24)
                      * (Gantt.MONTH_WIDTH / (3044 # 100)))%Q in
  ((px a <= px b)%Q <-> a <= b) /\ ((px a < px b)%Q <-> a < b) /\ (px 0%Z == 0)%Q.
Proof.
  intros a b px. subst px. unfold Gantt.MONTH_WIDTH.
  unfold Qle, Qlt, Qeq, Qdiv, Qmult, Qinv, inject_Z. simpl. lia.
Qed.

Lemma grid_head : forall lbl eff,
  exists c rest, Gantt.timeline lbl eff = c :: rest /\ Gantt.date c = setDate eff 1.
Proof.
  intros lbl eff. pose proof (timeline_nth lbl eff O ltac:(lia)) as E.
  destruct (Gantt.timeline lbl eff) as [|c rest]; [discriminate E|].
  injection E as ->. exists (Gantt.cell lbl (setDate eff 1) (Z.of_nat 0)), rest.
  split; [reflexivity|]. unfold Gantt.cell. cbv zeta. cbn [Gantt.date].
  change (Z.of_nat 0) with 0. rewrite Z.add_0_r. apply setMonth_same.
Qed.

(** X12.  On the generated grid [getPosition] never fails; positions are
    ordered as the dates are, strictly so; a position is non-negative
    exactly from the first of the month of the chart start on, where it is
    0. *)
Theorem position_on_grid : forall lbl eff d1 d2,
  exists p1 p2,
    Gantt.getPosition (Gantt.timeline lbl eff) d1 = Some p1 /\
    Gantt.getPosition (Gantt.timeline lbl eff) d2 = Some p2 /\
    ((p1 <= p2)%Q <-> d1 <= d2) /\
    ((p1 < p2)%Q <-> d1 < d2) /\
    ((0 <= p1)%Q <-> setDate eff 1 <= d1) /\
    (d1 = setDate eff 1 -> (p1 == 0)%Q).
Proof.
  intros lbl eff d1 d2.
  destruct (grid_head lbl eff) as (c & rest & -> & Hc).
  unfold Gantt.getPosition. rewrite Hc. cbv zeta. unfold getTime.
  eexists. eexists. split; [reflexivity|]. split; [reflexivity|].
  destruct (pixels_sign (d1 - setDate eff 1) (d2 - setDate eff 1)) as (A & B & Z0).
  destruct (pixels_sign 0 (d1 - setDate eff 1)) as (A0 & _ & _).
  cbv beta in *.
  split; [rewrite A; lia|]. split; [rewrite B; lia|]. split.
  - rewrite <- Z0. rewrite A0. lia.
  - intros ->. rewrite Z.sub_diag. exact Z0.
Qed.


Lemma Math_min_le : forall rest first,
  Gantt.Math_min first rest <= first /\
  (forall x, In x rest -> Gantt.Math_min first rest <= x).
Proof.
  unfold Gantt.Math_min. induction rest as [|y rest IH]; intros first.
  - simpl. split; [lia|]. intros x [].
  - cbn [fold_left]. destruct (IH (Z.min first y)) as (A & B). split; [lia|].
    intros x [<-|Hx]; [lia|]. apply B, Hx.
Qed.

(** X14.  The chart starts two months before the project's start date
    in detail mode, and at or before every signature date of the portfolio
    otherwise, so that these dates get a non-negative position on the grid;
    with no start date and no project the chart starts now. *)
Theorem chart_starts_before_signatures : forall lbl mode singleStartDate projects now,
  let eff := Gantt.effectiveStartDate mode singleStartDate projects now in
  let grid := Gantt.timeline lbl eff in
  (forall d, mode = Gantt.detail -> singleStartDate = Some d ->
     eff = subMonths d 2 /\ eff <= d /\
     exists q, Gantt.getPosition grid d = Some q /\ (0 <= q)%Q) /\
  (forall p, mode = Gantt.portfolio \/ singleStartDate = None -> In p projects ->
     eff <= signatureDate p /\
     exists q, Gantt.getPosition grid (signatureDate p) = Some q /\ (0 <= q)%Q) /\
  (mode = Gantt.portfolio \/ singleStartDate = None -> projects = [] -> eff = now).
Proof.
  intros lbl mode sd projects now eff grid.
  assert (Pos : forall d, eff <= d ->
            exists q, Gantt.getPosition grid d = Some q /\ (0 <= q)%Q).
  { intros d Hd. subst grid.
    destruct (grid_head lbl eff) as (c & rest & -> & Hc).
    unfold Gantt.getPosition. rewrite Hc. cbv zeta. unfold getTime.
    eexists. split; [reflexivity|].
    destruct (pixels_sign 0 (d - setDate eff 1)) as (A & _ & Z0). cbv beta in *.
    rewrite <- Z0. apply A.
    destruct (setDate_first eff) as (_ & _ & _ & _ & Hle). lia. }
  split; [|split].
  - intros d -> ->. subst eff. cbn [Gantt.effectiveStartDate].
    change 2%Q with (inject_Z 2). rewrite subMonths_whole.
    assert (Hle : setMonth d (getMonth d - 2) <= d) by (apply setMonth_le; lia).
    split; [reflexivity|]. split; [exact Hle|].
    apply Pos. cbn [Gantt.effectiveStartDate]. exact Hle.
  - intros p Hm Hp.
    assert (E : eff = match projects with
                      | q :: ps =>
                          let m := Gantt.Math_min (getTime (signatureDate q))
                                     (map (fun p => getTime (signatureDate p)) ps) in
                          setMonth m (getMonth m - 2)
                      | [] => now
                      end).
    { subst eff. unfold Gantt.effectiveStartDate.
      destruct Hm as [->| ->]; [reflexivity|]. destruct mode; reflexivity. }
    assert (Hle : eff <= signatureDate p).
    { rewrite E. destruct projects as [|q ps]; [destruct Hp|]. cbv zeta.
      destruct (Math_min_le (map (fun p => getTime (signatureDate p)) ps)
                  (getTime (signatureDate q))) as (A & B).
      set (m := Gantt.Math_min _ _) in *.
      assert (m <= signatureDate p).
      { destruct Hp as [<-|Hp]; [exact A|].
        apply B. apply (in_map (fun p => getTime (signatureDate p))), Hp. }
      pose proof (setMonth_le m (getMonth m - 2) ltac:(lia)). lia. }
    split; [exact Hle|]. apply Pos, Hle.
  - intros Hm ->. subst eff. unfold Gantt.effectiveStartDate.
    destruct Hm as [->| ->]; [destruct sd|destruct mode]; reflexivity.
Qed.

(** ** The project list *)

Lemma numberText_inj : forall a b, App.numberText a = App.numberText b -> a = b.
Proof.
  intros a b H. unfold App.numberText in H.
  assert (E : Some (Nat.to_uint a) = Some (Nat.to_uint b)).
  { rewrite <- !NilEmpty.usu. rewrite H. reflexivity. }
  injection E as E.
  rewrite <- (Unsigned.of_to a), <- (Unsigned.of_to b), E. reflexivity.
Qed.

Lemma new_id_inj : forall now a b,
  id (App.createNewProject now a) = id (App.createNewProject now b) -> a = b.
Proof.
  intros now a b H. cbn [App.createNewProject id] in H.
  apply numberText_inj. cbn in H. injection H as H. exact H.
Qed.

Lemma filter_other_ids : forall i l,
  (forall p, In p (filter (fun p => negb (String.eqb (id p) i)) l) <-> In p l /\ id p <> i) /\
  ~ In i (map id (filter (fun p => negb (String.eqb (id p) i)) l)).
Proof.
  intros i l. split.
  - intros p. rewrite filter_In. split; intros (A & B); split; try exact A.
    + intros E. rewrite E, String.eqb_refl in B. discriminate B.
    + destruct (String.eqb_spec (id p) i); [contradiction|reflexivity].
  - intros H. apply in_map_iff in H. destruct H as (p & E & Hp).
    apply filter_In in Hp. destruct Hp as (_ & B).
    rewrite E, String.eqb_refl in B. discriminate B.
Qed.

Lemma filter_distinct_length : forall i l, NoDup (map id l) ->
  let r := filter (fun p => negb (String.eqb (id p) i)) l in
  NoDup (map id r) /\
  (In i (map id l) -> S (List.length r) = List.length l) /\
  (~ In i (map id l) -> r = l).
Proof.
  intros i l. induction l as [|p l IH]; intros Hnd; cbn [filter map].
  - split; [constructor|]. split; [intros []|reflexivity].
  - cbn [map] in Hnd. inversion Hnd as [|x xs Hnotin Hnd']; subst.
    destruct (IH Hnd') as (A & B & C). cbv zeta in *.
    destruct (String.eqb_spec (id p) i) as [E|E]; cbn [negb].
    + subst i. split; [exact A|]. split.
      * intros _. rewrite (C Hnotin). reflexivity.
      * intros H. exfalso. apply H. left. reflexivity.
    + split; [|split].
      * cbn [map]. constructor; [|exact A].
        intros H. apply Hnotin. apply in_map_iff in H. destruct H as (q & Eq & Hq).
        apply filter_In in Hq. apply in_map_iff. exists q. split; [exact Eq|apply Hq].
      * intros [H|H]; [contradiction|]. cbn [List.length]. rewrite (B H). reflexivity.
      * intros H. rewrite C; [reflexivity|]. intros F. apply H. right. exact F.
Qed.

(** X15.  When the project ids are pairwise distinct, [deleteProject]
    does not fail; a list of at most one project is left as it is;
    otherwise exactly the projects with another id remain, at least one of
    them, one fewer than before when the id was present and all of them
    when it was not; ids stay distinct and a selection that designated a
    project still does. *)
Theorem deleteProject_distinct_ids : forall s i,
  NoDup (ids s) ->
  exists s',
    App.deleteProject s i = Some s' /\
    ((List.length (App.projects s) <= 1)%nat -> s' = s) /\
    ((1 < List.length (App.projects s))%nat ->
       App.projects s' <> [] /\
       ~ In i (ids s') /\
       (forall p, In p (App.projects s') <-> In p (App.projects s) /\ id p <> i) /\
       (In i (ids s) -> S (List.length (App.projects s')) = List.length (App.projects s)) /\
       (~ In i (ids s) -> App.projects s' = App.projects s)) /\
    NoDup (ids s') /\
    (In (App.currentId s) (ids s) -> In (App.currentId s') (ids s')).
Proof.
  intros s i Hnd. unfold ids in *. unfold App.deleteProject.
  destruct (Nat.leb_spec (List.length (App.projects s)) 1) as [Hle|Hgt].
  - exists s. split; [reflexivity|]. split; [reflexivity|]. split; [lia|]. auto.
  - destruct (filter_distinct_length i (App.projects s) Hnd) as (A & B & C).
    destruct (filter_other_ids i (App.projects s)) as (D & E). cbv zeta in *.
    set (remaining := filter (fun p => negb (String.eqb (id p) i)) (App.projects s)) in *.
    assert (Hne : remaining <> []).
    { intros F. destruct (in_dec string_dec i (map id (App.projects s))) as [Hin|Hout].
      - specialize (B Hin). rewrite F in B. cbn in B. lia.
      - specialize (C Hout). rewrite F in C. rewrite <- C in Hgt. cbn in Hgt. lia. }
    destruct (String.eqb_spec (App.currentId s) i) as [Ec|Ec].
    + destruct remaining as [|p rest] eqn:Er; [contradiction|].
      eexists. split; [reflexivity|]. cbn [App.projects App.currentId].
      split; [lia|]. split.
      { intros _. split; [exact Hne|]. split; [exact E|]. split; [exact D|].
        split; [exact B|exact C]. }
      split; [exact A|]. intros _. cbn [map]. left. reflexivity.
    + eexists. split; [reflexivity|]. cbn [App.projects App.currentId].
      split; [lia|]. split.
      { intros _. split; [exact Hne|]. split; [exact E|]. split; [exact D|].
        split; [exact B|exact C]. }
      split; [exact A|]. intros Hin. apply in_map_iff in Hin.
      destruct Hin as (p & Ep & Hp). apply in_map_iff. exists p. split; [exact Ep|].
      apply D. split; [exact Hp|]. rewrite Ep. exact Ec.
Qed.

Lemma deleteProject_distinct_ids_witness :
  exists s', App.deleteProject (App.addProject 0 (App.initial 0)) "prj_1" = Some s' /\
             ids s' = ["prj_2"%string].
Proof.
  assert (Hnd : NoDup (ids (App.addProject 0 (App.initial 0)))).
  { vm_compute. constructor; [|constructor; [|constructor]].
    - intros [H|[]]. discriminate H.
    - intros []. }
  destruct (deleteProject_distinct_ids (App.addProject 0 (App.initial 0)) "prj_1" Hnd)
    as (s' & E & _).
  exists s'. split; [exact E|].
  vm_compute in E. injection E as <-. reflexivity.
Defined.

Lemma NoDup_map_injective : forall (A B : Type) (f : A -> B) (l : list A),
  (forall a b, f a = f b -> a = b) -> NoDup l -> NoDup (map f l).
Proof.
  intros A B f l Hinj H. induction H as [|x l Hx Hl IH]; cbn [map]; constructor.
  - intros F. apply in_map_iff in F. destruct F as (y & E & Hy).
    apply Hinj in E. subst y. contradiction.
  - exact IH.
Qed.

Lemma ids_addProject : forall now s,
  ids (App.addProject now s)
  = ids s ++ [("prj_" ++ App.numberText (List.length (App.projects s) + 1))%string].
Proof.
  intros now s. unfold ids, App.addProject. cbn [App.projects].
  rewrite map_app. reflexivity.
Qed.

Lemma additions_ids : forall now n,
  ids (additions now n (App.initial now))
  = map (fun k => ("prj_" ++ App.numberText k)%string) (seq 1 (S n)).
Proof.
  intros now n. induction n as [|n IH].
  - reflexivity.
  - cbn [additions]. rewrite ids_addProject, IH.
    assert (L : List.length (App.projects (additions now n (App.initial now))) = S n).
    { unfold ids in IH. apply (f_equal (@List.length string)) in IH.
      rewrite !length_map, length_seq in IH. exact IH. }
    rewrite L, (seq_S (S n) 1), map_app. cbn [map].
    replace (S n + 1)%nat with (1 + S n)%nat by lia. reflexivity.
Qed.

(** X16.  After [n] additions to a fresh list the projects are
    [prj_1] ... [prj_(n+1)], pairwise distinct, and the selected project is
    the last one added. *)
Theorem additions_keep_ids_distinct : forall now n,
  let s := additions now n (App.initial now) in
  List.length (App.projects s) = S n /\
  ids s = map (fun k => ("prj_" ++ App.numberText k)%string) (seq 1 (S n)) /\
  NoDup (ids s) /\
  App.currentId s = ("prj_" ++ App.numberText (S n))%string /\
  option_map id (App.currentProject s) = Some (App.currentId s).
Proof.
  intros now n s. subst s.
  pose proof (additions_ids now n) as Hids.
  assert (L : List.length (App.projects (additions now n (App.initial now))) = S n).
  { unfold ids in Hids. apply (f_equal (@List.length string)) in Hids.
    rewrite !length_map, length_seq in Hids. exact Hids. }
  assert (Hcur : App.currentId (additions now n (App.initial now))
                 = ("prj_" ++ App.numberText (S n))%string).
  { destruct n as [|n]; [reflexivity|]. cbn [additions].
    unfold App.addProject. cbn [App.currentId App.createNewProject id].
    assert (L' : List.length (App.projects (additions now n (App.initial now))) = S n).
    { pose proof (additions_ids now n) as H. unfold ids in H.
      apply (f_equal (@List.length string)) in H.
      rewrite !length_map, length_seq in H. exact H. }
    rewrite L'. repeat f_equal. lia. }
  split; [exact L|]. split; [exact Hids|]. split; [|split; [exact Hcur|]].
  - rewrite Hids. apply NoDup_map_injective; [|apply seq_NoDup].
    intros a b H. apply numberText_inj. injection H as H. exact H.
  - unfold App.currentProject.
    destruct (find (fun p => String.eqb (id p) (App.currentId (additions now n (App.initial now))))
                (App.projects (additions now n (App.initial now)))) as [p|] eqn:F.
    + apply find_some in F. destruct F as (_ & F). apply String.eqb_eq in F.
      cbn [option_map]. rewrite F. reflexivity.
    + exfalso.
      assert (Hin : In (App.currentId (additions now n (App.initial now)))
                       (ids (additions now n (App.initial now)))).
      { rewrite Hcur, Hids. apply in_map_iff. exists (S n). split; [reflexivity|].
        apply in_seq. lia. }
      unfold ids in Hin. apply in_map_iff in Hin. destruct Hin as (p & Ep & Hp).
      pose proof (find_none _ _ F p Hp) as Hf. cbv beta in Hf.
      rewrite Ep, String.eqb_refl in Hf. discriminate Hf.
Qed.

Lemma filter_all_same_id : forall i l,
  (forall p, In p l -> id p = i) ->
  filter (fun p => negb (String.eqb (id p) i)) l = [].
Proof.
  intros i l H. induction l as [|p l IH]; [reflexivity|].
  cbn [filter]. rewrite (H p (or_introl eq_refl)), String.eqb_refl. cbn [negb].
  apply IH. intros q Hq. apply H. right. exact Hq.
Qed.

(** X17.  [deleteProject] fails exactly when the list has at least two
    projects, all of them carrying the id to delete, which is also the
    selected one.  Such a list is reachable: add, delete [prj_1], add gives
    two projects named [prj_2], and deleting [prj_2] then fails. *)
Theorem deleteProject_raises : forall s i,
  (App.deleteProject s i = None <->
   (1 < List.length (App.projects s))%nat /\ App.currentId s = i /\
   forall p, In p (App.projects s) -> id p = i) /\
  forall now, exists s2,
    App.deleteProject (App.addProject now (App.initial now)) "prj_1" = Some s2 /\
    ids (App.addProject now s2) = ["prj_2"%string; "prj_2"%string] /\
    App.deleteProject (App.addProject now s2) "prj_2" = None.
Proof.
  intros s i. split.
  - unfold App.deleteProject.
    destruct (Nat.leb_spec (List.length (App.projects s)) 1) as [Hle|Hgt].
    + split; [intros F; discriminate F|]. intros (F & _). lia.
    + destruct (String.eqb_spec (App.currentId s) i) as [Ec|Ec].
      * destruct (filter (fun p => negb (String.eqb (id p) i)) (App.projects s))
          as [|q rest] eqn:Ef.
        -- split; [|reflexivity]. intros _. split; [exact Hgt|]. split; [exact Ec|].
           intros p Hp. destruct (String.eqb_spec (id p) i) as [E|E]; [exact E|].
           exfalso. assert (Hin : In p (filter (fun p => negb (String.eqb (id p) i))
                                          (App.projects s))).
           { apply filter_In. split; [exact Hp|].
             destruct (String.eqb_spec (id p) i); [contradiction|reflexivity]. }
           rewrite Ef in Hin. destruct Hin.
        -- split; [intros F; discriminate F|]. intros (_ & _ & Hall).
           rewrite (filter_all_same_id i _ Hall) in Ef. discriminate Ef.
      * split; [intros F; discriminate F|]. intros (_ & F & _). contradiction.
  - intros now. eexists. split; [reflexivity|]. split; reflexivity.
Qed.

(** The engine reads the skip flags through [truthy] only. *)
Section SkipTruth.
Variables a b : ProjectConfig.
Hypothesis same : sameUpToSkipTruth a b.

Ltac flags :=
  let S := fresh "S" in
  pose proof same as S;
  destruct S as (_ & _ & Hsig & Hpow & Htyp & Hinj & Hinv & Hsub & Hovr & Hskip);
  unfold skipped, P, T0;
  rewrite ?Hsig, ?Hpow, ?Htyp, ?Hinj, ?Hinv, ?Hsub, ?Hovr;
  try rewrite (Hskip App.negotiation : truthy (Skip.negotiation _) = _);
  try rewrite (Hskip App.urbanism : truthy (Skip.urbanism _) = _);
  try rewrite (Hskip App.aoCre : truthy (Skip.aoCre _) = _);
  try rewrite (Hskip App.leaseManagement : truthy (Skip.leaseManagement _) = _);
  try rewrite (Hskip App.connection : truthy (Skip.connection _) = _);
  try rewrite (Hskip App.construction : truthy (Skip.construction _) = _);
  reflexivity.

Lemma T0_skip : T0 a = T0 b.
Proof. flags. Qed.
Lemma negotiationRange_skip : negotiationRange a = negotiationRange b.
Proof. unfold negotiationRange. flags. Qed.
Lemma urbanDuration_skip : urbanDuration a = urbanDuration b.
Proof. unfold urbanDuration. flags. Qed.
Lemma urbanEnd_skip : urbanEnd a = urbanEnd b.
Proof. unfold urbanEnd. rewrite urbanDuration_skip. flags. Qed.
Lemma urbanRange_skip : urbanRange a = urbanRange b.
Proof. unfold urbanRange. rewrite urbanDuration_skip, urbanEnd_skip. flags. Qed.
Lemma creRange_skip : creRange a = creRange b.
Proof. unfold creRange. rewrite urbanEnd_skip. flags. Qed.
Lemma leaseRange_skip : leaseRange a = leaseRange b.
Proof. unfold leaseRange. rewrite urbanEnd_skip. flags. Qed.
Lemma securityLockDate_skip : securityLockDate a = securityLockDate b.
Proof.
  unfold securityLockDate, creEndDate, leaseEndDate.
  rewrite creRange_skip, leaseRange_skip, urbanEnd_skip. reflexivity.
Qed.
Lemma connectionDuration_skip : connectionDuration a = connectionDuration b.
Proof. unfold connectionDuration. flags. Qed.
Lemma connectionEnd0_skip : connectionEnd0 a = connectionEnd0 b.
Proof.
  unfold connectionEnd0, connectionStart0.
  rewrite securityLockDate_skip, connectionDuration_skip. reflexivity.
Qed.
Lemma workMonthsNeeded_skip : workMonthsNeeded a = workMonthsNeeded b.
Proof. unfold workMonthsNeeded. flags. Qed.
Lemma targetConstructionEnd_skip : targetConstructionEnd a = targetConstructionEnd b.
Proof. unfold targetConstructionEnd. rewrite connectionEnd0_skip. reflexivity. Qed.
Lemma constructionStart0_skip : constructionStart0 a = constructionStart0 b.
Proof.
  unfold constructionStart0.
  rewrite targetConstructionEnd_skip, workMonthsNeeded_skip. flags.
Qed.
Lemma needsRepair_skip : needsRepair a = needsRepair b.
Proof.
  unfold needsRepair. rewrite constructionStart0_skip, securityLockDate_skip. reflexivity.
Qed.
Lemma actualConstructionEnd_skip : actualConstructionEnd a = actualConstructionEnd b.
Proof.
  unfold actualConstructionEnd.
  rewrite securityLockDate_skip, workMonthsNeeded_skip. flags.
Qed.
Lemma newConnectionEnd_skip : newConnectionEnd a = newConnectionEnd b.
Proof. unfold newConnectionEnd. rewrite actualConstructionEnd_skip. reflexivity. Qed.
Lemma connectionEnd_skip : connectionEnd a = connectionEnd b.
Proof.
  unfold connectionEnd.
  rewrite needsRepair_skip, newConnectionEnd_skip, connectionEnd0_skip. flags.
Qed.
Lemma connectionStart_skip : connectionStart a = connectionStart b.
Proof.
  unfold connectionStart, connectionStart0.
  rewrite needsRepair_skip, connectionEnd_skip, connectionDuration_skip,
    securityLockDate_skip. flags.
Qed.
Lemma constructionRange_skip : constructionRange a = constructionRange b.
Proof.
  unfold constructionRange, constructionStartDate.
  rewrite connectionStart_skip, connectionEnd_skip, needsRepair_skip,
    securityLockDate_skip, constructionStart0_skip. flags.
Qed.

Lemma timeline_skip : calculateProjectTimeline a = calculateProjectTimeline b.
Proof.
  rewrite !timeline_views. unfold finalNegotiationStart.
  rewrite negotiationRange_skip, urbanRange_skip, creRange_skip, leaseRange_skip,
    connectionStart_skip, connectionEnd_skip, connectionDuration_skip,
    constructionRange_skip, T0_skip, urbanEnd_skip.
  reflexivity.
Qed.
End SkipTruth.

Lemma getSkip_setSkip : forall s k v k',
  App.getSkip (App.setSkip s k v) k'
  = if match k, k' with
       | App.negotiation, App.negotiation | App.urbanism, App.urbanism
       | App.aoCre, App.aoCre | App.leaseManagement, App.leaseManagement
       | App.connection, App.connection | App.construction, App.construction => true
       | _, _ => false
       end
    then Some v else App.getSkip s k'.
Proof. intros s k v k'. destruct k, k'; reflexivity. Qed.

Lemma toggleProject_id : forall cur k p, id (App.toggleProject cur k p) = id p.
Proof.
  intros cur k p. unfold App.toggleProject.
  destruct (negb (String.eqb (id p) cur)); reflexivity.
Qed.

Lemma toggle_twice_project : forall cur k p,
  sameUpToSkipTruth (App.toggleProject cur k (App.toggleProject cur k p)) p.
Proof.
  intros cur k p. unfold App.toggleProject at 1. rewrite toggleProject_id.
  unfold App.toggleProject.
  destruct (negb (String.eqb (id p) cur)).
  - repeat split.
  - unfold sameUpToSkipTruth, withSkipped.
    cbn [id name signatureDate powerKWc typology injectionType investmentModel
         isSubcontracted overrides skippedPhases].
    repeat (split; [reflexivity|]).
    intros k'. rewrite !getSkip_setSkip.
    destruct k, k'; cbn [negb]; try reflexivity;
      match goal with |- context [truthy ?x] => destruct x as [[|]|]; reflexivity end.
Qed.

(** X18.  Toggling the skip of a phase twice gives every project the
    timeline it had.  One toggle keeps the ids and the selection, leaves
    the projects with another id untouched, and on the selected project
    flips the truthiness of that one flag, keeping the other flags, the
    overrides, the signature date and the power. *)
Theorem toggle_twice_same_timeline : forall s k,
  let s1 := App.toggleSkipPhase s k in
  let s2 := App.toggleSkipPhase s1 k in
  map calculateProjectTimeline (App.projects s2)
    = map calculateProjectTimeline (App.projects s) /\
  ids s1 = ids s /\ App.currentId s1 = App.currentId s /\
  (forall p, In p (App.projects s) -> id p <> App.currentId s ->
     App.toggleProject (App.currentId s) k p = p) /\
  (forall p, In p (App.projects s) -> id p = App.currentId s ->
     let p' := App.toggleProject (App.currentId s) k p in
     truthy (App.getSkip (skippedPhases p') k)
       = negb (truthy (App.getSkip (skippedPhases p) k)) /\
     (forall k', k' <> k ->
        App.getSkip (skippedPhases p') k' = App.getSkip (skippedPhases p) k') /\
     overrides p' = overrides p /\ signatureDate p' = signatureDate p /\
     powerKWc p' = powerKWc p).
Proof.
  intros s k s1 s2. subst s1 s2. unfold App.toggleSkipPhase, ids.
  cbn [App.projects App.currentId]. split; [|split; [|split; [|split]]].
  - rewrite !map_map. apply map_ext. intros p.
    apply timeline_skip, toggle_twice_project.
  - rewrite map_map. apply map_ext. intros p. apply toggleProject_id.
  - reflexivity.
  - intros p _ Hp. unfold App.toggleProject.
    destruct (String.eqb_spec (id p) (App.currentId s)); [contradiction|reflexivity].
  - intros p _ Hp. unfold App.toggleProject.
    rewrite Hp, String.eqb_refl. cbn [negb]. unfold withSkipped.
    cbn [skippedPhases overrides signatureDate powerKWc].
    split; [|split; [|repeat split]].
    + rewrite getSkip_setSkip.
      destruct k;
        match goal with
        | |- context [truthy (App.getSkip ?s ?kk)] => destruct (truthy (App.getSkip s kk))
        end; reflexivity.
    + intros k' Hk. rewrite getSkip_setSkip.
      destruct k, k'; try reflexivity; contradiction.
Qed.

Lemma overrideProject_id : forall cur k v p, id (App.overrideProject cur k v p) = id p.
Proof.
  intros cur k v p. unfold App.overrideProject.
  destruct (negb (String.eqb (id p) cur)); reflexivity.
Qed.

(** X19.  When the selected project has no override for a phase,
    entering a value and then clearing the field gives back the very same
    state.  Entering a value keeps the ids, leaves the projects with another
    id untouched and, on the selected project, stores the value under that
    key, keeps the skip flags and makes the value the duration of that very
    phase: of the negotiation, urbanism, tender and lease ranges when they
    exist, of the connection range unless skipped, of the work months
    needed. *)
Theorem override_round_trip : forall s k v,
  (forall p, In p (App.projects s) -> id p = App.currentId s ->
     App.getOverride (overrides p) k = None) ->
  let s1 := App.handleOverrideChange s k (Some v) in
  let s2 := App.handleOverrideChange s1 k None in
  s2 = s /\
  ids s1 = ids s /\
  (forall p, In p (App.projects s) -> id p <> App.currentId s ->
     App.overrideProject (App.currentId s) k (Some v) p = p) /\
  (forall p, In p (App.projects s) -> id p = App.currentId s ->
     let p' := App.overrideProject (App.currentId s) k (Some v) p in
     App.getOverride (overrides p') k = Some v /\
     skippedPhases p' = skippedPhases p /\
     match k with
     | App.negotiationDuration =>
         truthy (Skip.negotiation (skipped p')) = false ->
         option_map durationMonths (Result.negotiation (calculateProjectTimeline p')) = Some v
     | App.urbanismDuration =>
         truthy (Skip.urbanism (skipped p')) = false ->
         option_map durationMonths (Result.urbanism (calculateProjectTimeline p')) = Some v
     | App.creDuration =>
         forall c, Result.aoCre (calculateProjectTimeline p') = Some c -> durationMonths c = v
     | App.leaseDuration =>
         forall l, Result.leaseManagement (calculateProjectTimeline p') = Some l ->
                   durationMonths l = v
     | App.connectionDuration =>
         truthy (Skip.connection (skipped p')) = false ->
         durationMonths (Result.connection (calculateProjectTimeline p')) = v
     | App.constructionDuration => workMonthsNeeded p' = v
     end).
Proof.
  intros s k v Hnone s1 s2. subst s1 s2. unfold App.handleOverrideChange, ids.
  cbn [App.projects App.currentId]. split; [|split; [|split]].
  - destruct s as [ps cur vm tab]. cbn [App.projects App.currentId App.viewMode
      App.sidebarTab] in *. f_equal.
    rewrite map_map. rewrite <- (map_id ps) at 2. apply map_ext_in. intros p Hp.
    unfold App.overrideProject at 1. rewrite overrideProject_id.
    unfold App.overrideProject.
    destruct (String.eqb_spec (id p) cur) as [E|E]; cbn [negb]; [|reflexivity].
    specialize (Hnone p Hp E). destruct p as [i n sd pw ty inj inv sub o sk].
    cbn [overrides] in Hnone. unfold withOverrides.
    cbn [id name signatureDate powerKWc typology injectionType investmentModel
         isSubcontracted overrides skippedPhases].
    f_equal. destruct o as [o1 o2 o3 o4 o5 o6].
    destruct k; cbn in Hnone; subst; reflexivity.
  - rewrite map_map. apply map_ext. intros p. apply overrideProject_id.
  - intros p _ Hp. unfold App.overrideProject.
    destruct (String.eqb_spec (id p) (App.currentId s)); [contradiction|reflexivity].
  - intros p _ Hp. unfold App.overrideProject.
    rewrite Hp, String.eqb_refl. cbn [negb].
    split; [destruct k; reflexivity|]. split; [reflexivity|].
    rewrite timeline_views.
    destruct k.
    + intros Hs. cbn [Result.negotiation]. unfold negotiationRange. rewrite Hs. reflexivity.
    + intros Hs. cbn [Result.urbanism]. unfold urbanRange. rewrite Hs. reflexivity.
    + intros c E. cbn [Result.aoCre] in E. unfold creRange in E.
      match type of E with (if ?b then _ else _) = _ => destruct b end;
        [|discriminate E]. injection E as <-. reflexivity.
    + intros l E. cbn [Result.leaseManagement] in E. unfold leaseRange in E.
      match type of E with (if ?b then _ else _) = _ => destruct b end;
        [|discriminate E]. injection E as <-. reflexivity.
    + intros Hs. cbn [Result.connection durationMonths]. unfold connectionDuration.
      rewrite Hs. reflexivity.
    + reflexivity.
Qed.




Lemma override_round_trip_witness :
  App.handleOverrideChange
    (App.handleOverrideChange (App.initial 0) App.connectionDuration (Some 7%Q))
    App.connectionDuration None
  = App.initial 0.
Proof.
  apply (override_round_trip (App.initial 0) App.connectionDuration 7%Q).
  intros p [<-|[]] _. reflexivity.
Defined.

Lemma grid_is_sixty_months_witness :
  exists c, nth_error (Gantt.timeline (fun _ => ""%string) (ymd 2025 1 15)) 14 = Some c /\
            Gantt.year c = 2026 /\ Gantt.monthIndex c = 2.
Proof.
  destruct (grid_is_sixty_months (fun _ => ""%string) (ymd 2025 1 15)) as (_ & H).
  destruct (H 14%nat ltac:(lia)) as (c & E & _ & _ & Y & M & _).
  exists c. split; [exact E|]. rewrite Y, M. vm_compute. split; reflexivity.
Defined.

(** * Invalid dates *)

Lemma TimeClip_some : forall t v, Clipped.TimeClip t = Some v ->
  v = t /\ Z.abs t <= Clipped.maxTimeValue.
Proof.
  intros t v H. unfold Clipped.TimeClip in H.
  destruct (Z.abs t <=? Clipped.maxTimeValue) eqn:E; [|discriminate].
  injection H as <-. split; [reflexivity|]. apply Z.leb_le, E.
Qed.

Lemma TimeClip_again : forall t v, Clipped.TimeClip t = Some v ->
  Clipped.TimeClip v = Some v.
Proof.
  intros t v H. destruct (TimeClip_some t v H) as [-> _]. exact H.
Qed.

Lemma newDate_some : forall d v, Clipped.newDate d = Some v ->
  d = Some v /\ Clipped.TimeClip v = Some v.
Proof.
  intros [t|] v H; [|discriminate]. cbn [Clipped.newDate] in H.
  destruct (TimeClip_some t v H) as [-> _]. split; [reflexivity | exact H].
Qed.

Lemma newDate_valid : forall v, Clipped.TimeClip v = Some v ->
  Clipped.newDate (Some v) = Some v.
Proof. intros v H. exact H. Qed.

(** A valid result of [addMonths] or [subMonths] comes from a valid date,
    by the arithmetic of the first embedding. *)
Lemma addMonths_valid : forall t q, Clipped.TimeClip t = Some t ->
  Clipped.addMonths (Some t) q = Clipped.TimeClip (addMonths t q).
Proof.
  intros t q H. unfold Clipped.addMonths. cbv zeta. cbn [Clipped.newDate].
  rewrite H. cbn [Clipped.setMonth Clipped.getMonth Clipped.plus option_map].
  unfold addMonths. reflexivity.
Qed.

Lemma subMonths_valid : forall t q, Clipped.TimeClip t = Some t ->
  Clipped.subMonths (Some t) q = Clipped.TimeClip (subMonths t q).
Proof.
  intros t q H. unfold Clipped.subMonths. cbv zeta. cbn [Clipped.newDate].
  rewrite H. cbn [Clipped.setMonth Clipped.getMonth Clipped.minus option_map].
  unfold subMonths. reflexivity.
Qed.

Lemma addMonths_invalid : forall d q, Clipped.newDate d = None ->
  Clipped.addMonths d q = None.
Proof. intros d q H. unfold Clipped.addMonths. cbv zeta. rewrite H. reflexivity. Qed.

Lemma subMonths_invalid : forall d q, Clipped.newDate d = None ->
  Clipped.subMonths d q = None.
Proof. intros d q H. unfold Clipped.subMonths. cbv zeta. rewrite H. reflexivity. Qed.

Lemma addMonths_some : forall d q v, Clipped.addMonths d q = Some v ->
  exists t, d = Some t /\ Clipped.TimeClip t = Some t /\
            v = addMonths t q /\ Clipped.TimeClip v = Some v.
Proof.
  intros d q v H.
  destruct (Clipped.newDate d) as [t|] eqn:E;
    [|rewrite (addMonths_invalid d q E) in H; discriminate].
  destruct (newDate_some d t E) as [-> Ht].
  rewrite (addMonths_valid t q Ht) in H.
  exists t. split; [reflexivity|]. split; [exact Ht|].
  split; [apply (TimeClip_some _ _ H) | apply (TimeClip_again _ _ H)].
Qed.

Lemma subMonths_some : forall d q v, Clipped.subMonths d q = Some v ->
  exists t, d = Some t /\ Clipped.TimeClip t = Some t /\
            v = subMonths t q /\ Clipped.TimeClip v = Some v.
Proof.
  intros d q v H.
  destruct (Clipped.newDate d) as [t|] eqn:E;
    [|rewrite (subMonths_invalid d q E) in H; discriminate].
  destruct (newDate_some d t E) as [-> Ht].
  rewrite (subMonths_valid t q Ht) in H.
  exists t. split; [reflexivity|]. split; [exact Ht|].
  split; [apply (TimeClip_some _ _ H) | apply (TimeClip_again _ _ H)].
Qed.

(** [x.setDate(x.getDate() + k)] on a copy of a date. *)
Lemma shift_valid : forall t k, Clipped.TimeClip t = Some t ->
  Clipped.setDate (Clipped.newDate (Some t))
    (Clipped.offset (Clipped.getDate (Clipped.newDate (Some t))) k)
  = Clipped.TimeClip (t + k * msPerDay).
Proof.
  intros t k H. cbn [Clipped.newDate]. rewrite H.
  cbn [Clipped.setDate Clipped.getDate Clipped.offset option_map].
  rewrite setDate_shift. reflexivity.
Qed.

Lemma shift_some : forall d k v,
  Clipped.setDate (Clipped.newDate d)
    (Clipped.offset (Clipped.getDate (Clipped.newDate d)) k) = Some v ->
  exists t, d = Some t /\ Clipped.TimeClip t = Some t /\
            v = t + k * msPerDay /\ Clipped.TimeClip v = Some v.
Proof.
  intros d k v H.
  destruct (Clipped.newDate d) as [t|] eqn:E; [|discriminate].
  destruct (newDate_some d t E) as [-> Ht].
  rewrite <- E in H. rewrite (shift_valid t k Ht) in H.
  exists t. split; [reflexivity|]. split; [exact Ht|].
  split; [apply (TimeClip_some _ _ H) | apply (TimeClip_again _ _ H)].
Qed.

Lemma diffMonths_valid : forall a b,
  Clipped.diffMonths (Some a) (Some b) = Some (diffMonths a b).
Proof.
  intros a b. unfold Clipped.diffMonths, diffMonths.
  cbn [Clipped.getFullYear Clipped.getMonth option_map]. reflexivity.
Qed.

Lemma diffMonths_invalid : forall d,
  Clipped.diffMonths None d = None /\ Clipped.diffMonths d None = None.
Proof. intros [t|]; split; reflexivity. Qed.

Lemma diffMonths_formula : forall a b,
  diffMonths a b
  = Z.max 0 (12 * (getFullYear b - getFullYear a) + (getMonth b - getMonth a)).
Proof.
  intros a b. unfold diffMonths.
  destruct ((getFullYear b - getFullYear a) * 12 - getMonth a + getMonth b <=? 0) eqn:E;
    lia.
Qed.

(** A property kept by the body of a loop holds when the loop is left. *)
Lemma while_invariant : forall (St : Type) (I : St -> Prop) cond body,
  (forall s, I s -> I (body s)) ->
  forall fuel s, I s -> I (@while St fuel cond body s).
Proof.
  intros St I cond body Hb. induction fuel as [|fuel IH]; intros s Hs; simpl.
  - exact Hs.
  - destruct (cond s); [|exact Hs]. apply IH, Hb, Hs.
Qed.

(** The backward walk never moves its cursor past the date it starts from,
    and an invalid cursor stays invalid. *)
Section ClippedWalk.
Variable work : Q.

Lemma backward_body_le : forall t s,
  (forall c, Clipped.cursor s = Some c -> c <= t) ->
  forall c, Clipped.cursor (Clipped.backward_body s) = Some c -> c <= t.
Proof.
  intros t s Hs c H. unfold Clipped.backward_body in H. cbv zeta in H.
  cbn [Clipped.cursor] in H.
  destruct (subMonths_some _ _ _ H) as (c0 & E0 & _ & -> & _).
  specialize (Hs c0 E0).
  pose proof (subMonths_le c0 1 ltac:(reflexivity)). lia.
Qed.

Lemma backward_body_invalid : forall s,
  Clipped.cursor s = None -> Clipped.cursor (Clipped.backward_body s) = None.
Proof.
  intros s H. unfold Clipped.backward_body. cbv zeta. cbn [Clipped.cursor].
  apply subMonths_invalid. rewrite H. reflexivity.
Qed.

Lemma backward_walk_le : forall d v,
  Clipped.cursor (while walk_fuel (Clipped.walk_cond work) Clipped.backward_body
                    (Clipped.walk_init d)) = Some v ->
  exists t, d = Some t /\ Clipped.TimeClip t = Some t /\ v <= t.
Proof.
  intros d v H. destruct (Clipped.newDate d) as [t|] eqn:E.
  - destruct (newDate_some d t E) as [-> Ht].
    exists t. split; [reflexivity|]. split; [exact Ht|].
    revert v H.
    apply (while_invariant Clipped.Walk
             (fun s => forall c, Clipped.cursor s = Some c -> c <= t)).
    + apply backward_body_le.
    + intros c Hc. unfold Clipped.walk_init in Hc. cbn [Clipped.cursor] in Hc.
      rewrite E in Hc. injection Hc as <-. lia.
  - exfalso.
    assert (N : Clipped.cursor
                  (while walk_fuel (Clipped.walk_cond work) Clipped.backward_body
                     (Clipped.walk_init d)) = None).
    { apply (while_invariant Clipped.Walk (fun s => Clipped.cursor s = None)).
      - apply backward_body_invalid.
      - unfold Clipped.walk_init. cbn [Clipped.cursor]. exact E. }
    rewrite N in H. discriminate.
Qed.
End ClippedWalk.

(** Either walk leaves its loop by its own condition within the iteration
    budget, whether its cursor is valid or not: [protection] counts the
    iterations, so that a larger budget changes nothing. *)
Lemma clipped_walk_protection : forall work body,
  (forall s, Clipped.protection (body s) = Clipped.protection s + 1) ->
  forall fuel s,
    Clipped.walk_cond work (while fuel (Clipped.walk_cond work) body s) = false \/
    Clipped.protection (while fuel (Clipped.walk_cond work) body s)
      = Clipped.protection s + Z.of_nat fuel.
Proof.
  intros work body Hb. induction fuel as [|fuel IH]; intros s.
  - right. simpl. lia.
  - simpl while. destruct (Clipped.walk_cond work s) eqn:C.
    + destruct (IH (body s)) as [H|H]; [left; exact H|].
      right. rewrite H, Hb. lia.
    + left. exact C.
Qed.

Lemma clipped_walks_exit : forall work d,
  let b := while walk_fuel (Clipped.walk_cond work) Clipped.backward_body
             (Clipped.walk_init d) in
  let f := while walk_fuel (Clipped.walk_cond work) Clipped.forward_body
             (Clipped.walk_init d) in
  Clipped.walk_cond work b = false /\
  Clipped.walk_cond work f = false /\
  forall extra,
    while (walk_fuel + extra) (Clipped.walk_cond work) Clipped.backward_body
      (Clipped.walk_init d) = b /\
    while (walk_fuel + extra) (Clipped.walk_cond work) Clipped.forward_body
      (Clipped.walk_init d) = f.
Proof.
  intros work d b f. subst b f.
  assert (E : forall body,
            (forall s, Clipped.protection (body s) = Clipped.protection s + 1) ->
            Clipped.walk_cond work
              (while walk_fuel (Clipped.walk_cond work) body (Clipped.walk_init d)) = false).
  { intros body Hb.
    destruct (clipped_walk_protection work body Hb walk_fuel (Clipped.walk_init d))
      as [H|H]; [exact H|].
    assert (F : forall s, Clipped.protection s = 36 -> Clipped.walk_cond work s = false).
    { intros s Hp. unfold Clipped.walk_cond. rewrite Hp. apply andb_false_r. }
    apply F. rewrite H. reflexivity. }
  assert (Eb : forall s, Clipped.protection (Clipped.backward_body s)
                         = Clipped.protection s + 1) by reflexivity.
  assert (Ef : forall s, Clipped.protection (Clipped.forward_body s)
                         = Clipped.protection s + 1) by reflexivity.
  split; [apply E, Eb|]. split; [apply E, Ef|].
  intros extra. split; apply while_more_fuel; [apply E, Eb | apply E, Ef].
Qed.

(** On the worked scenario, and on the configuration whose repair moves the
    connection window, no date leaves the range and the two embeddings
    return the same result. *)
Lemma clipped_agrees_on_examples :
  Clipped.calculateProjectTimeline scenario
    = validResult (calculateProjectTimeline scenario) /\
  Clipped.calculateProjectTimeline lateSignature
    = validResult (calculateProjectTimeline lateSignature) /\
  Clipped.calculateProjectTimeline negativeWork
    = validResult (calculateProjectTimeline negativeWork).
Proof. split; [|split]; vm_compute; reflexivity. Qed.

Lemma total_is_diffMonths : forall cfg,
  Clipped.Result.totalDurationMonths (Clipped.calculateProjectTimeline cfg)
    = Clipped.diffMonths (Clipped.finalNegotiationStart cfg) (Clipped.codDate cfg) /\
  Clipped.cod (Clipped.Result.milestones (Clipped.calculateProjectTimeline cfg))
    = Clipped.codDate cfg.
Proof.
  intros cfg. unfold Clipped.calculateProjectTimeline.
  destruct (Clipped.constructionStage cfg) as [[range s] e].
  cbn [Clipped.Result.totalDurationMonths Clipped.Result.milestones Clipped.cod].
  split; reflexivity.
Qed.

(** C8, counterexample.  The scenario with an urbanism override of 4000000
    months: the signature date is valid, the end of urbanism lies beyond
    the range of time values and is an Invalid Date, so is every date
    after it, and [totalDurationMonths] is [NaN], which is not a number
    greater than or equal to 0. *)
Lemma huge_urbanism_total_NaN :
  Clipped.T0 hugeUrbanism = Some (ymd 2025 3 1) /\
  Clipped.urbanEnd hugeUrbanism = None /\
  Clipped.codDate hugeUrbanism = None /\
  Clipped.Result.totalDurationMonths (Clipped.calculateProjectTimeline hugeUrbanism)
    = None /\
  ~ total_not_negative hugeUrbanism.
Proof.
  assert (N : Clipped.Result.totalDurationMonths
                (Clipped.calculateProjectTimeline hugeUrbanism) = None)
    by (vm_compute; reflexivity).
  split; [vm_compute; reflexivity|]. split; [vm_compute; reflexivity|].
  split; [vm_compute; reflexivity|]. split; [exact N|].
  intros (n & H & _). rewrite N in H. discriminate.
Qed.

(** C8, as amended.  On valid dates [diffMonths a b] is
    [max 0 (12 * (year b - year a) + (month b - month a))], from years and
    months only and never negative; when either date is invalid it is
    [NaN].  [totalDurationMonths] is [diffMonths] of the negotiation start
    (the signature date when negotiation is skipped) and of the COD date:
    it is [NaN] exactly when one of the two is an Invalid Date, and
    otherwise a number that is not negative. *)
Theorem diffMonths_floor_or_NaN :
  (forall a b,
     Clipped.diffMonths (Some a) (Some b)
       = Some (Z.max 0 (12 * (getFullYear b - getFullYear a)
                        + (getMonth b - getMonth a)))) /\
  (forall d, Clipped.diffMonths None d = None /\ Clipped.diffMonths d None = None) /\
  (forall cfg,
     let total :=
       Clipped.Result.totalDurationMonths (Clipped.calculateProjectTimeline cfg) in
     total = Clipped.diffMonths (Clipped.finalNegotiationStart cfg) (Clipped.codDate cfg) /\
     (total = None <->
        Clipped.finalNegotiationStart cfg = None \/ Clipped.codDate cfg = None) /\
     (forall n, total = Some n -> 0 <= n) /\
     (forall a b, Clipped.finalNegotiationStart cfg = Some a ->
                  Clipped.codDate cfg = Some b ->
                  total_not_negative cfg)).
Proof.
  split; [|split].
  - intros a b. rewrite diffMonths_valid, diffMonths_formula. reflexivity.
  - apply diffMonths_invalid.
  - intros cfg total. subst total.
    destruct (total_is_diffMonths cfg) as [E _].
    split; [exact E|].
    assert (V : forall a b, Clipped.finalNegotiationStart cfg = Some a ->
                  Clipped.codDate cfg = Some b ->
                  Clipped.Result.totalDurationMonths (Clipped.calculateProjectTimeline cfg)
                    = Some (diffMonths a b) /\ 0 <= diffMonths a b).
    { intros a b Ha Hb. rewrite E, Ha, Hb, diffMonths_valid.
      split; [reflexivity|]. rewrite diffMonths_formula. lia. }
    split; [|split].
    + split.
      * intros H.
        destruct (Clipped.finalNegotiationStart cfg) as [a|] eqn:Ha; [|left; reflexivity].
        destruct (Clipped.codDate cfg) as [b|] eqn:Hb; [|right; reflexivity].
        destruct (V a b eq_refl eq_refl) as [V1 _]. rewrite V1 in H. discriminate.
      * intros [H|H]; rewrite E, H; apply diffMonths_invalid.
    + intros n H.
      destruct (Clipped.finalNegotiationStart cfg) as [a|] eqn:Ha.
      * destruct (Clipped.codDate cfg) as [b|] eqn:Hb.
        -- destruct (V a b eq_refl eq_refl) as [V1 V2]. rewrite V1 in H.
           injection H as <-. exact V2.
        -- rewrite E in H. rewrite (proj2 (diffMonths_invalid _)) in H. discriminate.
      * rewrite E in H. rewrite (proj1 (diffMonths_invalid _)) in H. discriminate.
    + intros a b Ha Hb. destruct (V a b Ha Hb) as [V1 V2].
      exists (diffMonths a b). split; [exact V1 | exact V2].
Qed.

(** Stage 5 when construction is not skipped, connection is skipped and the
    test of line 187 succeeds. *)
Lemma constructionStage_repair_skipped_connection : forall cfg,
  truthy (Skip.construction (skipped cfg)) = false ->
  truthy (Skip.connection (skipped cfg)) = true ->
  Clipped.lt (Clipped.constructionStart0 cfg) (Clipped.securityLockDate cfg) = true ->
  Clipped.constructionStage cfg
  = ({| Clipped.start := Clipped.newDate (Clipped.securityLockDate cfg);
        Clipped.end_ :=
          Clipped.newDate (Clipped.offset (Clipped.getTime (Clipped.connectionEnd0 cfg))
                             (- (15 * 24 * 60 * 60 * 1000)));
        Clipped.durationMonths :=
          option_map inject_Z
            (Clipped.diffMonths (Clipped.newDate (Clipped.securityLockDate cfg))
               (Clipped.connectionEnd0 cfg)) |},
     Clipped.connectionStart0 cfg, Clipped.connectionEnd0 cfg).
Proof.
  intros cfg Hcons Hconn Hlt. unfold Clipped.constructionStage. cbv zeta.
  rewrite Hcons, Hlt, Hconn. cbn [negb].
  destruct (isSubcontracted cfg); reflexivity.
Qed.

(** C10, as amended.  With connection skipped and construction not
    skipped, on a project that is self-executed or whose [workMonthsNeeded]
    is not negative, and whose backward-placed construction start is a
    valid date: the lock and the target end are valid dates, the target is
    the lock minus 15 days, the test of line 187 succeeds, the construction
    range is [lock, lock - 15 days] with duration 0 (its end before its
    start), and the connection range is the zero-length [lock, lock]. *)
Theorem skipped_connection_repair_valid : forall cfg s,
  truthy (Skip.connection (skipped cfg)) = true ->
  truthy (Skip.construction (skipped cfg)) = false ->
  isSubcontracted cfg = false \/ (0 <= workMonthsNeeded cfg)%Q ->
  Clipped.constructionStart0 cfg = Some s ->
  let r := Clipped.calculateProjectTimeline cfg in
  exists lock,
    Clipped.securityLockDate cfg = Some lock /\
    Clipped.targetConstructionEnd cfg = Some (lock - 15 * msPerDay) /\
    s <= lock - 15 * msPerDay /\
    Clipped.lt (Clipped.constructionStart0 cfg) (Clipped.securityLockDate cfg) = true /\
    Clipped.Result.construction r
      = {| Clipped.start := Some lock;
           Clipped.end_ := Some (lock - 15 * msPerDay);
           Clipped.durationMonths := Some 0%Q |} /\
    lock - 15 * msPerDay < lock /\
    Clipped.Result.connection r
      = {| Clipped.start := Some lock; Clipped.end_ := Some lock;
           Clipped.durationMonths := Some 0%Q |}.
Proof.
  intros cfg s Hconn Hcons Hwork Hs r. subst r.
  pose proof (connectionDuration_skipped cfg Hconn) as Hdur.
  (* the backward placement comes from a valid target and stays before it *)
  assert (Ht : exists t, Clipped.targetConstructionEnd cfg = Some t /\ s <= t).
  { unfold Clipped.constructionStart0 in Hs.
    destruct (isSubcontracted cfg) eqn:Hsub.
    - destruct Hwork as [Hwork|Hwork]; [discriminate|].
      destruct (subMonths_some _ _ _ Hs) as (t & Et & _ & -> & _).
      exists t. split; [exact Et|]. apply subMonths_le.
      apply Qlt_le_trans with (y := 0%Q); [reflexivity | exact Hwork].
    - destruct (backward_walk_le _ _ _ Hs) as (t & Et & _ & Hle).
      exists t. split; [exact Et | exact Hle]. }
  destruct Ht as (t & Et & Hst).
  (* the target is the initial connection end minus 15 days *)
  assert (He : exists e, Clipped.connectionEnd0 cfg = Some e /\
                         t = e + (- 15) * msPerDay /\ Clipped.TimeClip t = Some t).
  { unfold Clipped.targetConstructionEnd in Et. cbv zeta in Et.
    destruct (shift_some _ _ _ Et) as (e & Ee & _ & Ht & Hclip).
    exists e. split; [exact Ee|]. split; [exact Ht | exact Hclip]. }
  destruct He as (e & Ee & Hte & Hclip).
  (* a connection of no duration ends on the lock *)
  assert (Hl : Clipped.securityLockDate cfg = Some e /\ Clipped.TimeClip e = Some e).
  { unfold Clipped.connectionEnd0 in Ee. rewrite Hdur in Ee.
    destruct (addMonths_some _ _ _ Ee) as (l & El & _ & Hel & Hle).
    rewrite addMonths_zero in Hel. subst l.
    unfold Clipped.connectionStart0 in El.
    destruct (newDate_some _ _ El) as [El' _]. split; [exact El' | exact Hle]. }
  destruct Hl as [El Hlclip].
  assert (Hstart0 : Clipped.connectionStart0 cfg = Some e).
  { unfold Clipped.connectionStart0. rewrite El. exact Hlclip. }
  assert (Hlt : Clipped.lt (Clipped.constructionStart0 cfg) (Clipped.securityLockDate cfg)
                = true).
  { rewrite Hs, El. unfold Clipped.lt, Clipped.getTime. apply Z.ltb_lt.
    unfold msPerDay in Hte. lia. }
  assert (Hte' : t = e - 15 * msPerDay) by lia.
  exists e. split; [exact El|]. split; [rewrite Et, Hte'; reflexivity|].
  split; [lia|]. split; [exact Hlt|].
  unfold Clipped.calculateProjectTimeline.
  rewrite (constructionStage_repair_skipped_connection cfg Hcons Hconn Hlt).
  cbn [Clipped.Result.construction Clipped.Result.connection].
  rewrite El, Ee, Hstart0, Hdur.
  assert (Hend : Clipped.newDate
                   (Clipped.offset (Clipped.getTime (Some e)) (- (15 * 24 * 60 * 60 * 1000)))
                 = Some (e - 15 * msPerDay)).
  { unfold Clipped.getTime, Clipped.offset. cbn [option_map Clipped.newDate].
    replace (e + - (15 * 24 * 60 * 60 * 1000)) with (e - 15 * msPerDay)
      by (unfold msPerDay; lia).
    rewrite <- Hte'. exact Hclip. }
  rewrite Hend. cbn [Clipped.newDate]. rewrite Hlclip.
  rewrite diffMonths_valid, diffMonths_self. cbn [option_map].
  split; [reflexivity|]. split; [unfold msPerDay; lia | reflexivity].
Qed.

Lemma skipped_connection_repair_valid_witness :
  Clipped.Result.connection
    (Clipped.calculateProjectTimeline (withSkipped skipConnection scenario))
  = {| Clipped.start := Some (ymd 2025 11 1); Clipped.end_ := Some (ymd 2025 11 1);
       Clipped.durationMonths := Some 0%Q |}.
Proof.
  assert (Hs : Clipped.constructionStart0 (withSkipped skipConnection scenario)
               = Some (ymd 2025 6 17)) by (vm_compute; reflexivity).
  destruct (skipped_connection_repair_valid (withSkipped skipConnection scenario)
              (ymd 2025 6 17) eq_refl eq_refl (or_introl eq_refl) Hs)
    as (lock & El & _ & _ & _ & _ & _ & H).
  assert (L : Clipped.securityLockDate (withSkipped skipConnection scenario)
              = Some (ymd 2025 11 1)) by (vm_compute; reflexivity).
  rewrite L in El. injection El as <-. exact H.
Defined.

(** The two ways in which the test of line 187 fails although connection is
    skipped and construction is not: a negative [workMonthsNeeded] places
    the start after the lock, and a [workMonthsNeeded] of 4000000 months
    places it outside the range of time values, where it is an Invalid Date
    that compares false with the lock.  In either case construction does
    not start at the lock. *)
Lemma no_repair_on_negative_or_huge_work :
  Clipped.lt (Clipped.constructionStart0 negativeWork)
             (Clipped.securityLockDate negativeWork) = false /\
  Clipped.start (Clipped.Result.construction (Clipped.calculateProjectTimeline negativeWork))
    = Some (ymd 2025 11 17) /\
  Clipped.securityLockDate negativeWork = Some (ymd 2025 11 1) /\
  Clipped.constructionStart0 hugeWork = None /\
  Clipped.lt (Clipped.constructionStart0 hugeWork)
             (Clipped.securityLockDate hugeWork) = false /\
  Clipped.securityLockDate hugeWork = Some (ymd 2025 11 1) /\
  Clipped.start (Clipped.Result.construction (Clipped.calculateProjectTimeline hugeWork))
    = None.
Proof. repeat (split; [vm_compute; reflexivity|]). vm_compute; reflexivity. Qed.
